(** * Signature masking: [scripts/process_signatures.py]

    A shallow embedding of [process] and of the Pillow operations it calls,
    followed by the properties stated for it.  Pixel buffers are lists of
    rows updated in place by index; Python integers are [Z]; exceptions and
    the file system are threaded through a small state-and-exception monad. *)

From stdpp Require Import base numbers option list list_numbers strings pretty gmap.

Local Open Scope Z_scope.

(** ** Exceptions *)

Inductive exn :=
  | FileNotFoundError
  | UnidentifiedImageError
  | IndexError
  | ValueError
  | OSError.

Global Instance exn_eq_dec : EqDecision exn.
Proof. solve_decision. Defined.

Inductive result (A : Type) :=
  | Ok (a : A)
  | Raise (e : exn).
Global Arguments Ok {A} a.
Global Arguments Raise {A} e.

Global Instance result_ret : MRet result := λ A a, Ok a.
Global Instance result_bind : MBind result := λ A B f m,
  match m with
  | Ok a => f a
  | Raise e => Raise e
  end.

(** ** Images

    An image has a size and a buffer of [height] rows, each of [width]
    pixels.  [A] is the pixel type of the mode: [Z] for mode L, a triple for
    RGB, [rgba] for RGBA. *)

Record rgba := RGBA { red : Z; green : Z; blue : Z; alph : Z }.

Global Instance rgba_eq_dec : EqDecision rgba.
Proof. solve_decision. Defined.

Record image (A : Type) := Image {
  width : nat;
  height : nat;
  rows : list (list A)
}.
Global Arguments Image {A} width height rows.
Global Arguments width {A} i.
Global Arguments height {A} i.
Global Arguments rows {A} i.

Definition wf_image {A} (im : image A) : Prop :=
  length (rows im) = height im ∧
  Forall (λ row, length row = width im) (rows im).

Global Instance wf_image_dec {A} (im : image A) : Decision (wf_image im).
Proof. unfold wf_image. apply _. Defined.

(** [Image.new(mode, (w, h), color)] *)
Definition Image_new {A} (w h : nat) (color : A) : image A :=
  Image w h (replicate h (replicate w color)).

(** [px[x, y]] on a loaded pixel-access object: reading. *)
Definition getpixel {A} (im : image A) (x y : nat) : result A :=
  match rows im !! y ≫= (.!! x) with
  | Some v => Ok v
  | None => Raise IndexError
  end.

(** [apx[x, y] = v]: writing, in place. *)
Definition setpixel {A} (im : image A) (x y : nat) (v : A) : result (image A) :=
  if decide (x < width im ∧ y < height im)%nat
  then Ok (Image (width im) (height im) (alter (<[x := v]>) y (rows im)))
  else Raise IndexError.

(** [im.split()] of an RGBA image: its four bands. *)
Definition band {A B} (f : A → B) (im : image A) : image B :=
  Image (width im) (height im) (fmap (M := list) f <$> rows im).

Definition split (im : image rgba)
  : image Z * image Z * image Z * image Z :=
  (band red im, band green im, band blue im, band alph im).

(** [Image.merge('RGB', (r, g, b))]; bands of different sizes are refused. *)
Definition zip3 (r g b : list Z) : list (Z * Z * Z) :=
  zip_with (λ rg b, (rg.1, rg.2, b)) (zip r g) b.

Definition merge_RGB (r g b : image Z) : result (image (Z * Z * Z)) :=
  if decide (width g = width r ∧ height g = height r ∧
             width b = width r ∧ height b = height r)
  then Ok (Image (width r) (height r)
             (zip_with (λ rg b, zip3 rg.1 rg.2 b)
                (zip (rows r) (rows g)) (rows b)))
  else Raise ValueError.

(** The colour channels of a pixel, as [merge] puts them back together. *)
Definition rgb_of (p : rgba) : Z * Z * Z := (red p, green p, blue p).

(** ** The pixel loop (lines 16-30) *)

(** Body of the inner loop, lines 19-30: the value stored at [apx[x, y]].
    The parameters are integers, so [v] is one and [int(v)] is [v]. *)
Definition pixel_alpha (threshold gain : Z) (p : Z * Z * Z) : Z :=
  let '(pr, pg, pb) := p in
  let m := pr in
  let m := if bool_decide (pg > m) then pg else m in
  let m := if bool_decide (pb > m) then pb else m in
  let v := (m - threshold) * gain in
  if bool_decide (v <= 0) then 0
  else if bool_decide (v >= 255) then 255
  else v.

(** [for i in xs: s = body(i, s)], stopping at the first exception. *)
Fixpoint for_each {S} (xs : list nat) (body : nat → S → result S) (s : S)
  : result S :=
  match xs with
  | [] => Ok s
  | i :: xs => s' ← body i s; for_each xs body s'
  end.

Definition range (n : nat) : list nat := seq 0 n.

Definition fill_row (px : image (Z * Z * Z)) (w : nat) (threshold gain : Z)
    (y : nat) (apx : image Z) : result (image Z) :=
  for_each (range w) (λ x apx,
    p ← getpixel px x y;
    setpixel apx x y (pixel_alpha threshold gain p)) apx.

Definition fill_alpha (px : image (Z * Z * Z)) (w h : nat)
    (threshold gain : Z) (apx : image Z) : result (image Z) :=
  for_each (range h) (fill_row px w threshold gain) apx.

(** Lines 6-30: the full-size alpha mask of a decoded RGBA image. *)
Definition alpha_mask (im : image rgba) (threshold gain : Z)
  : result (image Z) :=
  let '(r, g, b, a) := split im in
  rgb ← merge_RGB r g b;
  let w := width rgb in
  let h := height rgb in
  let alpha := Image_new w h 0 in
  fill_alpha rgb w h threshold gain alpha.

(** ** Bounding box and crop (lines 32-39) *)

Abbreviation box := (Z * Z * Z * Z)%type.

(** Coordinates [(x, y)] of the non-zero pixels, in scan order (row by row,
    as Pillow's bounding-box scan visits them). *)
Definition nonzero_coords (a : image Z) : list (Z * Z) :=
  mjoin (imap (λ y row,
    mjoin (imap (λ x v,
      if bool_decide (v ≠ 0) then [(Z.of_nat x, Z.of_nat y)] else [])
      row)) (rows a)).

Definition extend (b : option box) (c : Z * Z) : option box :=
  let '(x, y) := c in
  match b with
  | None => Some (x, y, x + 1, y + 1)
  | Some (x0, y0, x1, y1) =>
      Some (Z.min x0 x, Z.min y0 y, Z.max x1 (x + 1), Z.max y1 (y + 1))
  end.

(** [im.getbbox()]: the bounding box (left, upper, right, lower) of the
    non-zero region, right and lower exclusive; [None] for an image that is
    zero everywhere. *)
Definition getbbox (a : image Z) : option box :=
  foldl extend None (nonzero_coords a).

(** Reading through a crop window: pixels outside the source are zero. *)
Definition pixel_or_zero (a : image Z) (x y : Z) : Z :=
  if bool_decide (0 ≤ x ∧ 0 ≤ y)
  then default 0 (rows a !! Z.to_nat y ≫= (.!! Z.to_nat x))
  else 0.

(** [im.crop((x0, y0, x1, y1))]: Pillow refuses a box whose right edge is
    left of its left edge, or whose lower edge is above its upper edge; the
    result has the size of the box and is zero outside the source. *)
Definition crop (a : image Z) (b : box) : result (image Z) :=
  let '(x0, y0, x1, y1) := b in
  if bool_decide (x1 < x0) then Raise ValueError
  else if bool_decide (y1 < y0) then Raise ValueError
  else Ok (Image (Z.to_nat (x1 - x0)) (Z.to_nat (y1 - y0))
             ((λ j, (λ i, pixel_or_zero a (x0 + i) (y0 + j))
                      <$> seqZ 0 (x1 - x0))
                <$> seqZ 0 (y1 - y0))).

(** Lines 34-38: the padded, clamped crop rectangle. *)
Definition padded_box (w h : nat) (pad : Z) (bbox : box) : box :=
  let '(x0, y0, x1, y1) := bbox in
  let x0 := Z.max 0 (x0 - pad) in
  let y0 := Z.max 0 (y0 - pad) in
  let x1 := Z.min (Z.of_nat w) (x1 + pad) in
  let y1 := Z.min (Z.of_nat h) (y1 + pad) in
  (x0, y0, x1, y1).

(** Lines 32-39. *)
Definition crop_to_content (w h : nat) (pad : Z) (alpha : image Z)
  : result (image Z) :=
  match getbbox alpha with
  | Some bbox => crop alpha (padded_box w h pad bbox)
  | None => Ok alpha
  end.

(** ** Compositing (lines 41-42) *)

Definition set_alpha (p : rgba) (a : Z) : rgba :=
  RGBA (red p) (green p) (blue p) a.

(** [out.putalpha(alpha)] with an image argument of mode L. *)
Definition putalpha (out : image rgba) (alpha : image Z)
  : result (image rgba) :=
  if decide (width alpha = width out ∧ height alpha = height out)
  then Ok (Image (width out) (height out)
             (zip_with (zip_with set_alpha) (rows out) (rows alpha)))
  else Raise ValueError.

Definition white_transparent : rgba := RGBA 255 255 255 0.

(** Lines 6-42: everything between decoding and saving. *)
Definition render (im : image rgba) (threshold gain pad : Z)
  : result (image rgba) :=
  let '(r, g, b, a) := split im in
  rgb ← merge_RGB r g b;
  let w := width rgb in
  let h := height rgb in
  let alpha := Image_new w h 0 in
  alpha ← fill_alpha rgb w h threshold gain alpha;
  alpha ← crop_to_content w h pad alpha;
  let out := Image_new (width alpha) (height alpha) white_transparent in
  putalpha out alpha.

(** ** Files and standard output

    A file either decodes to an RGBA image or is not an image.  [writable]
    tells for which paths [save] succeeds.  Where it does not,
    [save_failure] gives the exception that [save] raises and what it leaves
    at the path: [None] when the path is not touched (the file could not be
    opened for writing), [Some data] when the file was opened, and so
    created or truncated, before the failure, and holds [data] after it. *)

Inductive file :=
  | ImageFile (im : image rgba)
  | NotAnImage (data : string).

Record world := World {
  fs : gmap string file;
  writable : string → bool;
  stdout : list string;
  save_failure : string → exn * option string
}.

Definition IO (A : Type) : Type := world → result A * world.

Global Instance IO_ret : MRet IO := λ A a σ, (Ok a, σ).
Global Instance IO_bind : MBind IO := λ A B f m σ,
  match m σ with
  | (Ok a, σ') => f a σ'
  | (Raise e, σ') => (Raise e, σ')
  end.

Definition lift {A} (r : result A) : IO A := λ σ, (r, σ).

(** [Image.open(path).convert('RGBA')] *)
Definition Image_open (path : string) : IO (image rgba) := λ σ,
  match fs σ !! path with
  | None => (Raise FileNotFoundError, σ)
  | Some (NotAnImage _) => (Raise UnidentifiedImageError, σ)
  | Some (ImageFile im) => (Ok im, σ)
  end.

(** A [save] that fails: the exception, and the state it leaves. *)
Definition failed_save (path : string) (σ : world) : result () * world :=
  match save_failure σ path with
  | (e, None) => (Raise e, σ)
  | (e, Some data) =>
      (Raise e, World (<[path := NotAnImage data]> (fs σ)) (writable σ)
                  (stdout σ) (save_failure σ))
  end.

(** [out.save(path)] *)
Definition Image_save (out : image rgba) (path : string) : IO () := λ σ,
  if writable σ path
  then (Ok (), World (<[path := ImageFile out]> (fs σ)) (writable σ) (stdout σ)
                 (save_failure σ))
  else failed_save path σ.

Definition print (line : string) : IO () := λ σ,
  (Ok (), World (fs σ) (writable σ) (stdout σ ++ [line]) (save_failure σ)).

Definition status_line (dst_path : string) (out : image rgba) : string :=
  "Wrote " +:+ dst_path +:+ " (" +:+ pretty (width out) +:+ "x"
    +:+ pretty (height out) +:+ ")".

(** Lines 5-42: every step of [process] that comes before the file is
    encoded and written. *)
Definition prepare (src_path : string) (threshold gain pad : Z)
  : IO (image rgba) :=
  im ← Image_open src_path;
  lift (render im threshold gain pad).

(** [process], lines 4-44. *)
Definition process (src_path dst_path : string) (threshold gain pad : Z)
  : IO () :=
  im ← Image_open src_path;
  out ← lift (render im threshold gain pad);
  Image_save out dst_path;;
  print (status_line dst_path out).

(** Lines 46-48, with the default parameters of [process]. *)
Definition main : IO () :=
  process "assets/signature-david.png" "assets/signature-david-white.png"
    6 18 24;;
  process "assets/signature-farax.png" "assets/signature-farax-white.png"
    6 18 24.

(** ** Derived notions used in the statements *)

(** The brightest colour channel of a pixel. *)
Definition max_channel (p : rgba) : Z :=
  Z.max (Z.max (red p) (green p)) (blue p).

(** The mask as a map over the source buffer. *)
Definition mask_of (threshold gain : Z) (im : image rgba) : image Z :=
  band (λ p, pixel_alpha threshold gain (rgb_of p)) im.

(** A white image carrying a given alpha channel. *)
Definition silhouette (alpha : image Z) : image rgba :=
  band (set_alpha white_transparent) alpha.

(** [ceil(a / b)] for positive [b]. *)
Definition ceil_div (a b : Z) : Z := - ((- a) / b).

(** ** Example inputs *)

Definition black : rgba := RGBA 0 0 0 255.
Definition white : rgba := RGBA 255 255 255 255.

(** A 10×10 black image with one white pixel at (5, 5). *)
Definition scenario : image rgba :=
  Image 10 10
    (<[5%nat := <[5%nat := white]> (replicate 10 black)]>
       (replicate 10 (replicate 10 black))).

(** What [process] makes of it with threshold 6, gain 18 and pad 2. *)
Definition scenario_out : image rgba :=
  Image 5 5
    (<[2%nat := <[2%nat := RGBA 255 255 255 255]>
                  (replicate 5 white_transparent)]>
       (replicate 5 (replicate 5 white_transparent))).

(** Two 3×1 images with the same colours and different alpha channels. *)
Definition strip : image rgba :=
  Image 3 1 [[RGBA 0 0 0 255; RGBA 10 12 9 255; RGBA 200 40 90 255]].
Definition strip_faded : image rgba :=
  Image 3 1 [[RGBA 0 0 0 0; RGBA 10 12 9 31; RGBA 200 40 90 128]].

(** A 2×2 image with nothing above intensity 6. *)
Definition dark : image rgba :=
  Image 2 2 [[RGBA 0 0 0 255; RGBA 6 1 0 255]; [RGBA 2 6 3 255; RGBA 0 5 6 255]].

Definition disk (files : gmap string file) : world :=
  World files (λ _, true) [] (λ _, (OSError, None)).

(** A coordinate lies in a box (right and lower edges exclusive). *)
Definition inside (c : Z * Z) (b : box) : Prop :=
  let '(x, y) := c in
  let '(x0, y0, x1, y1) := b in
  x0 ≤ x < x1 ∧ y0 ≤ y < y1.

(** The first box is contained in the second. *)
Definition box_le (b b' : box) : Prop :=
  let '(x0, y0, x1, y1) := b in
  let '(x0', y0', x1', y1') := b' in
  x0' ≤ x0 ∧ y0' ≤ y0 ∧ x1 ≤ x1' ∧ y1 ≤ y1'.

(** A non-empty box inside [[0, W] × [0, H]]. *)
Definition within (W H : Z) (b : box) : Prop :=
  let '(x0, y0, x1, y1) := b in
  0 ≤ x0 ∧ 0 ≤ y0 ∧ x1 ≤ W ∧ y1 ≤ H ∧ x0 < x1 ∧ y0 < y1.

(** Every edge of a box touches one of the coordinates. *)
Definition attained (cs : list (Z * Z)) (b : box) : Prop :=
  let '(x0, y0, x1, y1) := b in
  (∃ c, c ∈ cs ∧ c.1 = x0) ∧ (∃ c, c ∈ cs ∧ c.2 = y0) ∧
  (∃ c, c ∈ cs ∧ c.1 + 1 = x1) ∧ (∃ c, c ∈ cs ∧ c.2 + 1 = y1).

(** A file system holding the two sources that the script reads. *)
Definition assets_disk : world :=
  disk {["assets/signature-david.png" := ImageFile scenario;
         "assets/signature-farax.png" := ImageFile strip]}.

(** The same files where every save fails after opening its destination,
    leaving it empty. *)
Definition assets_disk_full : world :=
  World {["assets/signature-david.png" := ImageFile scenario;
          "assets/signature-farax.png" := ImageFile strip]}
    (λ _, false) [] (λ _, (OSError, Some "")).

(** The same files where only the first destination can be saved. *)
Definition assets_disk_first_only : world :=
  World {["assets/signature-david.png" := ImageFile scenario;
          "assets/signature-farax.png" := ImageFile strip]}
    (λ path, bool_decide (path = "assets/signature-david-white.png")) []
    (λ _, (OSError, Some "")).

(** * Properties *)

(** ** The loops compute a map over the pixel buffer *)

Section loops.
Context {S : Type}.
Implicit Types (body : nat → S → result S) (I : nat → S → Prop).

(** Invariant rule for [for i in range(j, j + n)]. *)
Lemma for_each_seq_inv I body n : ∀ j s,
  I j s →
  (∀ i s, (j ≤ i < j + n)%nat → I i s → ∃ s', body i s = Ok s' ∧ I (Datatypes.S i) s') →
  ∃ s', for_each (seq j n) body s = Ok s' ∧ I (j + n)%nat s'.
Proof.
  induction n as [|n IH]; intros j s Hj Hstep; simpl.
  - exists s. by rewrite Nat.add_0_r.
  - destruct (Hstep j s) as (s1 & -> & H1); [lia|done|]. simpl.
    destruct (IH (Datatypes.S j) s1) as (s2 & -> & H2); [done| |].
    + intros i s' ??. apply Hstep; [lia|done].
    + exists s2. by rewrite Nat.add_succ_r.
Qed.

Lemma for_each_range_inv I body n s :
  I 0%nat s →
  (∀ i s, (i < n)%nat → I i s → ∃ s', body i s = Ok s' ∧ I (Datatypes.S i) s') →
  ∃ s', for_each (range n) body s = Ok s' ∧ I n s'.
Proof.
  intros H0 Hstep.
  destruct (for_each_seq_inv I body n 0%nat s) as (s' & ? & ?); [done| |by exists s'].
  intros i s' ??. apply Hstep; [lia|done].
Qed.
End loops.

(** One more element moves from the old buffer to the new one. *)
Lemma insert_take_drop {A} (new old : list A) (i : nat) (v : A) :
  new !! i = Some v → (i < length old)%nat →
  <[i := v]> (take i new ++ drop i old) = take (S i) new ++ drop (S i) old.
Proof.
  intros Hnew Hold.
  pose proof (lookup_lt_Some _ _ _ Hnew) as Hlen.
  destruct (lookup_lt_is_Some_2 old i Hold) as [o Ho].
  rewrite (take_S_r _ _ _ Hnew), (drop_S _ _ _ Ho), <-(assoc_L (++)).
  rewrite insert_app_r_alt by (rewrite length_take; lia).
  rewrite length_take, Nat.min_l, Nat.sub_diag by lia. done.
Qed.

Lemma alter_insert_same {A} (f : A → A) (l : list A) (i : nat) (x : A) :
  alter f i (<[i := x]> l) = <[i := f x]> l.
Proof.
  apply list_eq; intros j. destruct (decide (i = j)) as [->|Hne].
  - rewrite list_lookup_alter_eq.
    destruct (decide (j < length l)%nat).
    + by rewrite !list_lookup_insert_eq by done.
    + by rewrite !list_insert_ge, (lookup_ge_None_2 l j) by lia.
  - by rewrite list_lookup_alter_ne, !list_lookup_insert_ne by done.
Qed.

Section fill.
Context (px : image (Z * Z * Z)) (threshold gain : Z).
Let f := pixel_alpha threshold gain.

Lemma fill_row_eq (apx : image Z) (y : nat) (prow : list (Z * Z * Z)) (old : list Z) :
  rows px !! y = Some prow →
  rows apx !! y = Some old →
  length prow = width apx → length old = width apx →
  (y < height apx)%nat →
  fill_row px (width apx) threshold gain y apx
  = Ok (Image (width apx) (height apx) (<[y := f <$> prow]> (rows apx))).
Proof.
  intros Hp Ha Hlp Hlo Hy. unfold fill_row.
  destruct (for_each_range_inv
    (λ i s, s = Image (width apx) (height apx)
                  (<[y := take i (f <$> prow) ++ drop i old]> (rows apx)))
    (λ x apx, p ← getpixel px x y; setpixel apx x y (pixel_alpha threshold gain p))
    (width apx) apx) as (s' & -> & ->).
  - simpl. rewrite list_insert_id by done. by destruct apx.
  - intros i s Hi ->.
    destruct (lookup_lt_is_Some_2 prow i) as [p Hpi]; [lia|].
    unfold getpixel. rewrite Hp. simpl. rewrite Hpi. simpl.
    unfold setpixel. simpl. rewrite decide_True by done.
    eexists; split; [done|]. f_equal.
    rewrite alter_insert_same. f_equal.
    apply insert_take_drop; [|lia].
    by rewrite list_lookup_fmap, Hpi.
  - do 2 f_equal. rewrite take_ge, drop_ge, (right_id_L [] (++)); [done|lia|].
    rewrite length_fmap. lia.
Qed.

Lemma fill_alpha_eq (apx : image Z) :
  wf_image apx →
  length (rows px) = height apx →
  Forall (λ row, length row = width apx) (rows px) →
  fill_alpha px (width apx) (height apx) threshold gain apx
  = Ok (Image (width apx) (height apx) (fmap (M := list) f <$> rows px)).
Proof.
  intros [Hh Hw] Hph Hpw. unfold fill_alpha.
  destruct (for_each_range_inv
    (λ j s, s = Image (width apx) (height apx)
                  (take j (fmap (M := list) f <$> rows px) ++ drop j (rows apx)))
    (fill_row px (width apx) threshold gain)
    (height apx) apx) as (s' & -> & ->).
  - simpl. by destruct apx.
  - intros j s Hj ->.
    destruct (lookup_lt_is_Some_2 (rows px) j) as [prow Hpj]; [lia|].
    destruct (lookup_lt_is_Some_2 (rows apx) j) as [old Hoj]; [lia|].
    set (cur := Image _ _ _).
    change (width apx) with (width cur) at 1.
    rewrite (fill_row_eq cur j prow old); simpl; try done.
    + eexists; split; [done|]. f_equal.
      apply insert_take_drop; [|lia].
      by rewrite list_lookup_fmap, Hpj.
    + rewrite lookup_app_r; rewrite length_take, length_fmap, Nat.min_l by lia; [|lia].
      by rewrite Nat.sub_diag, lookup_drop, Nat.add_0_r.
    + by eapply (Forall_lookup_1 _ _ _ _ Hpw).
    + by eapply (Forall_lookup_1 _ _ _ _ Hw).
  - do 2 f_equal. rewrite take_ge, drop_ge, (right_id_L [] (++)); [done|lia|].
    rewrite length_fmap. lia.
Qed.
End fill.

(** ** Bands, masks and compositing as maps *)

Lemma wf_band {A B} (f : A → B) (im : image A) :
  wf_image im → wf_image (band f im).
Proof.
  intros [Hh Hw]. split; simpl.
  - by rewrite length_fmap.
  - apply Forall_fmap. eapply Forall_impl; [done|].
    intros row Hrow. simpl. by rewrite length_fmap.
Qed.

Lemma wf_Image_new {A} (w h : nat) (c : A) : wf_image (Image_new w h c).
Proof.
  split; simpl; [apply length_replicate|].
  apply Forall_replicate, length_replicate.
Qed.

Lemma getpixel_band {A B} (f : A → B) (im : image A) (x y : nat) (p : A) :
  getpixel im x y = Ok p → getpixel (band f im) x y = Ok (f p).
Proof.
  unfold getpixel. simpl. rewrite list_lookup_fmap.
  destruct (rows im !! y) as [row|]; simpl; [|done].
  rewrite list_lookup_fmap. destruct (row !! x); simpl; congruence.
Qed.

Lemma getpixel_band_inv {A B} (f : A → B) (im : image A) (x y : nat) (v : B) :
  getpixel (band f im) x y = Ok v → ∃ p, getpixel im x y = Ok p ∧ v = f p.
Proof.
  unfold getpixel. simpl. rewrite list_lookup_fmap.
  destruct (rows im !! y) as [row|]; simpl; [|done].
  rewrite list_lookup_fmap. destruct (row !! x) as [p|]; simpl; [|done].
  intros [= <-]. by exists p.
Qed.

Lemma getpixel_in_range {A} (im : image A) (x y : nat) :
  wf_image im → (x < width im)%nat → (y < height im)%nat →
  ∃ p, getpixel im x y = Ok p.
Proof.
  intros [Hh Hw] Hx Hy. unfold getpixel.
  destruct (lookup_lt_is_Some_2 (rows im) y) as [row Hrow]; [lia|].
  rewrite Hrow. simpl.
  pose proof (Forall_lookup_1 _ _ _ _ Hw Hrow) as Hlen. simpl in Hlen.
  destruct (lookup_lt_is_Some_2 row x) as [p Hp]; [lia|].
  rewrite Hp. by exists p.
Qed.

Lemma getpixel_lt {A} (im : image A) (x y : nat) (p : A) :
  wf_image im → getpixel im x y = Ok p →
  (x < width im)%nat ∧ (y < height im)%nat.
Proof.
  intros [Hh Hw]. unfold getpixel.
  destruct (rows im !! y) as [row|] eqn:Hrow; simpl; [|done].
  destruct (row !! x) as [q|] eqn:Hq; [|done]. intros _.
  pose proof (Forall_lookup_1 _ _ _ _ Hw Hrow) as Hlen. simpl in Hlen.
  apply lookup_lt_Some in Hrow, Hq. lia.
Qed.

Lemma zip3_bands (row : list rgba) :
  zip3 (red <$> row) (green <$> row) (blue <$> row) = rgb_of <$> row.
Proof. unfold zip3. induction row as [|p row IH]; simpl; [done|]. by f_equal. Qed.

Lemma zip_bands (rs : list (list rgba)) :
  zip_with (λ rg b, zip3 rg.1 rg.2 b)
    (zip (fmap (M := list) red <$> rs) (fmap (M := list) green <$> rs))
    (fmap (M := list) blue <$> rs)
  = fmap (M := list) rgb_of <$> rs.
Proof.
  induction rs as [|row rs IH]; [done|].
  rewrite !fmap_cons. cbn [zip_with fst snd].
  rewrite zip3_bands. f_equal. exact IH.
Qed.

Lemma merge_split (im : image rgba) :
  merge_RGB (band red im) (band green im) (band blue im) = Ok (band rgb_of im).
Proof.
  unfold merge_RGB. rewrite decide_True by done.
  unfold band. cbn [width height rows]. by rewrite zip_bands.
Qed.

Lemma alpha_mask_eq (im : image rgba) (threshold gain : Z) :
  wf_image im → alpha_mask im threshold gain = Ok (mask_of threshold gain im).
Proof.
  intros Hwf. unfold alpha_mask, split. rewrite merge_split. simpl.
  pose proof (fill_alpha_eq (band rgb_of im) threshold gain
                (Image_new (width im) (height im) 0)) as Hfill.
  simpl in Hfill. rewrite Hfill.
  - unfold mask_of, band. do 2 f_equal.
    rewrite <-list_fmap_compose. apply list_fmap_ext. intros _ row _. simpl.
    by rewrite <-list_fmap_compose.
  - apply wf_Image_new.
  - rewrite length_fmap. apply Hwf.
  - apply (wf_band rgb_of im Hwf).
Qed.

Lemma putalpha_new (alpha : image Z) (c : rgba) :
  wf_image alpha →
  putalpha (Image_new (width alpha) (height alpha) c) alpha
  = Ok (band (set_alpha c) alpha).
Proof.
  intros [Hh Hw]. unfold putalpha. simpl. rewrite decide_True by done.
  unfold band. do 2 f_equal.
  rewrite <-Hh. clear Hh.
  induction Hw as [|row rs Hrow _ IH]; simpl; [done|].
  rewrite IH. f_equal. rewrite zip_with_replicate_l; [done|lia].
Qed.

Lemma wf_crop (a a' : image Z) (b : box) : crop a b = Ok a' → wf_image a'.
Proof.
  destruct b as [[[x0 y0] x1] y1]. unfold crop.
  repeat case_bool_decide; try done. intros [= <-]. split; simpl.
  - by rewrite length_fmap, length_seqZ.
  - apply Forall_fmap, Forall_forall. intros j _. simpl.
    by rewrite length_fmap, length_seqZ.
Qed.

Lemma wf_crop_to_content (w h : nat) (pad : Z) (a a' : image Z) :
  wf_image a → crop_to_content w h pad a = Ok a' → wf_image a'.
Proof.
  intros Hwf. unfold crop_to_content. destruct (getbbox a) as [b|].
  - apply wf_crop.
  - by intros [= <-].
Qed.

(** [render] is the mask, cropped to content, as a white silhouette. *)
Lemma render_eq (im : image rgba) (threshold gain pad : Z) :
  wf_image im →
  render im threshold gain pad
  = alpha ← crop_to_content (width im) (height im) pad
              (mask_of threshold gain im);
    Ok (silhouette alpha).
Proof.
  intros Hwf. pose proof (alpha_mask_eq im threshold gain Hwf) as Hmask.
  unfold alpha_mask, split in Hmask. unfold render, split.
  destruct (merge_RGB _ _ _) as [rgb|e] eqn:Hmerge; [|done]. simpl in *.
  rewrite merge_split in Hmerge. injection Hmerge as <-. simpl in *.
  rewrite Hmask. simpl.
  destruct (crop_to_content _ _ _ _) as [alpha|e] eqn:Hcrop; [|done]. simpl.
  apply putalpha_new. eapply wf_crop_to_content; [|done].
  by apply wf_band.
Qed.

(** ** The per-pixel ramp *)

Lemma pixel_alpha_ramp (threshold gain : Z) (p : rgba) :
  let v := (max_channel p - threshold) * gain in
  pixel_alpha threshold gain (rgb_of p)
  = if bool_decide (v ≤ 0) then 0 else if bool_decide (255 ≤ v) then 255 else v.
Proof.
  unfold pixel_alpha, rgb_of, max_channel. destruct p as [r g b a]. simpl.
  assert ((if bool_decide (b > (if bool_decide (g > r) then g else r))
           then b else if bool_decide (g > r) then g else r) = Z.max (Z.max r g) b)
    as -> by (repeat case_bool_decide; lia).
  repeat case_bool_decide; lia.
Qed.

Lemma pixel_alpha_range (threshold gain : Z) (p : Z * Z * Z) :
  0 ≤ pixel_alpha threshold gain p ≤ 255.
Proof.
  destruct p as [[r g] b]. unfold pixel_alpha. repeat case_bool_decide; lia.
Qed.

Lemma ceil_div_mul (a b : Z) : 0 < b → a ≤ ceil_div a b * b.
Proof.
  intros Hb. unfold ceil_div.
  pose proof (Z.mul_div_le (- a) b Hb). lia.
Qed.

(** ** The bounding box *)

Lemma elem_of_nonzero_coords (a : image Z) (c : Z * Z) :
  c ∈ nonzero_coords a ↔
  ∃ (x y : nat) (v : Z),
    c = (Z.of_nat x, Z.of_nat y) ∧ getpixel a x y = Ok v ∧ v ≠ 0.
Proof.
  unfold nonzero_coords, getpixel. rewrite list_elem_of_join. split.
  - intros (l & Hc & Hl). apply elem_of_lookup_imap in Hl as (y & row & -> & Hrow).
    apply list_elem_of_join in Hc as (l & Hc & Hl).
    apply elem_of_lookup_imap in Hl as (x & v & -> & Hv).
    case_bool_decide; [|by apply not_elem_of_nil in Hc].
    apply list_elem_of_singleton in Hc as ->.
    exists x, y, v. by rewrite Hrow; simpl; rewrite Hv.
  - intros (x & y & v & -> & Hget & Hv).
    destruct (rows a !! y) as [row|] eqn:Hrow; simpl in Hget; [|done].
    destruct (row !! x) as [v'|] eqn:Hx; [|done]. injection Hget as ->.
    eexists; split; [|by eapply elem_of_lookup_imap_2].
    apply list_elem_of_join. eexists; split; [|by eapply elem_of_lookup_imap_2].
    rewrite bool_decide_true by done. by apply list_elem_of_singleton.
Qed.

Lemma extend_spec (b : box) (c : Z * Z) :
  ∃ b', extend (Some b) c = Some b' ∧ box_le b b' ∧ inside c b' ∧
        ∀ W H, within W H b → 0 ≤ c.1 < W → 0 ≤ c.2 < H → within W H b'.
Proof.
  destruct b as [[[x0 y0] x1] y1], c as [x y]. eexists; split; [done|].
  unfold box_le, inside, within. simpl. repeat split; lia.
Qed.

Lemma box_le_inside (b b' : box) (c : Z * Z) :
  box_le b b' → inside c b → inside c b'.
Proof.
  destruct b as [[[x0 y0] x1] y1], b' as [[[x0' y0'] x1'] y1'], c as [x y].
  unfold box_le, inside. lia.
Qed.

Lemma box_le_trans (b1 b2 b3 : box) : box_le b1 b2 → box_le b2 b3 → box_le b1 b3.
Proof.
  destruct b1 as [[[? ?] ?] ?], b2 as [[[? ?] ?] ?], b3 as [[[? ?] ?] ?].
  unfold box_le. lia.
Qed.

Lemma box_le_refl (b : box) : box_le b b.
Proof. destruct b as [[[? ?] ?] ?]. unfold box_le. lia. Qed.

Lemma foldl_extend_Some (W H : Z) (cs : list (Z * Z)) : ∀ b : box,
  ∃ b', foldl extend (Some b) cs = Some b' ∧ box_le b b' ∧
        Forall (λ c, inside c b') cs ∧
        (within W H b → Forall (λ c, 0 ≤ c.1 < W ∧ 0 ≤ c.2 < H) cs →
         within W H b').
Proof.
  induction cs as [|c cs IH]; intros b; simpl.
  - exists b. eauto using box_le_refl.
  - destruct (extend_spec b c) as (b1 & -> & Hle1 & Hin1 & Hw1).
    destruct (IH b1) as (b' & -> & Hle & Hins & Hw).
    exists b'. split; [done|]. split; [by eapply box_le_trans|]. split.
    + constructor; [by eapply box_le_inside|done].
    + intros Hb Hcs. inversion_clear Hcs as [|?? [??] ?]. apply Hw; [|done].
      by apply Hw1.
Qed.

Lemma getbbox_None (a : image Z) :
  getbbox a = None ↔ nonzero_coords a = [].
Proof.
  unfold getbbox. destruct (nonzero_coords a) as [|[x y] cs]; [done|].
  change (foldl extend None ((x, y) :: cs))
    with (foldl extend (Some (x, y, x + 1, y + 1)) cs).
  destruct (foldl_extend_Some 0 0 cs (x, y, x + 1, y + 1)) as (b' & -> & _).
  done.
Qed.

Lemma getbbox_Some (a : image Z) (b : box) :
  wf_image a → getbbox a = Some b →
  within (Z.of_nat (width a)) (Z.of_nat (height a)) b ∧
  ∀ (x y : nat) (v : Z), getpixel a x y = Ok v → v ≠ 0 →
    inside (Z.of_nat x, Z.of_nat y) b.
Proof.
  intros Hwf. unfold getbbox.
  assert (Forall (λ c, 0 ≤ c.1 < Z.of_nat (width a) ∧ 0 ≤ c.2 < Z.of_nat (height a))
            (nonzero_coords a)) as Hrange.
  { apply Forall_forall. intros c (x & y & v & -> & Hget & _)%elem_of_nonzero_coords.
    apply getpixel_lt in Hget; [|done]. simpl. lia. }
  pose proof (elem_of_nonzero_coords a) as Hmem.
  destruct (nonzero_coords a) as [|[x y] cs]; [done|].
  change (foldl extend None ((x, y) :: cs))
    with (foldl extend (Some (x, y, x + 1, y + 1)) cs).
  destruct (foldl_extend_Some (Z.of_nat (width a)) (Z.of_nat (height a)) cs
              (x, y, x + 1, y + 1)) as (b' & -> & Hle & Hins & Hw).
  intros [= <-]. inversion_clear Hrange as [|?? Hxy Hcs]. split.
  - apply Hw; [|done]. unfold within. simpl in Hxy. lia.
  - intros x' y' v Hget Hv.
    assert ((Z.of_nat x', Z.of_nat y') ∈ (x, y) :: cs) as Hc.
    { apply Hmem. by exists x', y', v. }
    apply elem_of_cons in Hc as [Heq|Hc].
    + injection Heq as <- <-. apply (box_le_inside _ _ _ Hle). unfold inside. lia.
    + by eapply (proj1 (Forall_forall _ _) Hins).
Qed.

(** ** Cropping *)

Lemma pixel_or_zero_get (a : image Z) (x y : nat) (v : Z) :
  getpixel a x y = Ok v → pixel_or_zero a (Z.of_nat x) (Z.of_nat y) = v.
Proof.
  unfold getpixel, pixel_or_zero. rewrite bool_decide_true by lia.
  rewrite !Nat2Z.id. destruct (rows a !! y ≫= _); simpl; congruence.
Qed.

Lemma crop_ok (a : image Z) (x0 y0 x1 y1 : Z) :
  x0 ≤ x1 → y0 ≤ y1 →
  ∃ a', crop a (x0, y0, x1, y1) = Ok a' ∧
        width a' = Z.to_nat (x1 - x0) ∧ height a' = Z.to_nat (y1 - y0) ∧
        ∀ i j : nat, Z.of_nat i < x1 - x0 → Z.of_nat j < y1 - y0 →
          getpixel a' i j = Ok (pixel_or_zero a (x0 + Z.of_nat i) (y0 + Z.of_nat j)).
Proof.
  intros Hx Hy. unfold crop. rewrite !bool_decide_false by lia.
  eexists; split; [done|]. split; [done|]. split; [done|].
  intros i j Hi Hj. unfold getpixel. simpl.
  rewrite list_lookup_fmap, lookup_seqZ_lt by done. simpl.
  rewrite list_lookup_fmap, lookup_seqZ_lt by done. done.
Qed.

Lemma padded_box_spec (w h : nat) (pad : Z) (b : box) :
  0 ≤ pad → within (Z.of_nat w) (Z.of_nat h) b →
  box_le b (padded_box w h pad b) ∧
  within (Z.of_nat w) (Z.of_nat h) (padded_box w h pad b).
Proof.
  destruct b as [[[x0 y0] x1] y1]. unfold within, box_le, padded_box. lia.
Qed.

(** ** [process] as a function of the file system *)

Lemma process_spec (src_path dst_path : string) (threshold gain pad : Z) (σ : world) :
  process src_path dst_path threshold gain pad σ =
  match fs σ !! src_path with
  | None => (Raise FileNotFoundError, σ)
  | Some (NotAnImage _) => (Raise UnidentifiedImageError, σ)
  | Some (ImageFile im) =>
      match render im threshold gain pad with
      | Raise e => (Raise e, σ)
      | Ok out =>
          if writable σ dst_path
          then (Ok (), World (<[dst_path := ImageFile out]> (fs σ)) (writable σ)
                         (stdout σ ++ [status_line dst_path out])
                         (save_failure σ))
          else failed_save dst_path σ
      end
  end.
Proof.
  unfold process, mbind, IO_bind, Image_open, lift, Image_save, print.
  destruct (fs σ !! src_path) as [[im|data]|]; [|done..].
  destruct (render im threshold gain pad) as [out|e]; [|done].
  destruct (writable σ dst_path); [done|].
  unfold failed_save. by destruct (save_failure σ dst_path) as [e [data|]].
Qed.

(** A failed save raises, prints nothing and touches no other path. *)
Lemma failed_save_spec (path : string) (σ : world) :
  ∃ (e : exn) (σ' : world),
    failed_save path σ = (Raise e, σ') ∧
    e = (save_failure σ path).1 ∧
    stdout σ' = stdout σ ∧ writable σ' = writable σ ∧
    save_failure σ' = save_failure σ ∧
    (∀ other, other ≠ path → fs σ' !! other = fs σ !! other) ∧
    (fs σ' = fs σ ∨ ∃ data, fs σ' = <[path := NotAnImage data]> (fs σ)).
Proof.
  unfold failed_save. destruct (save_failure σ path) as [e [data|]].
  - eexists _, _. split; [done|]. cbn [fst fs writable stdout save_failure].
    repeat split; [|by eauto].
    intros other Hne. by rewrite lookup_insert_ne.
  - eexists _, _. split; [done|]. repeat split; by eauto.
Qed.

(** ** Pixels of the mask *)

Lemma getpixel_mask_of (im : image rgba) (threshold gain : Z) (x y : nat) (p : rgba) :
  getpixel im x y = Ok p →
  getpixel (mask_of threshold gain im) x y
  = Ok (pixel_alpha threshold gain (rgb_of p)).
Proof. apply (getpixel_band (λ p, pixel_alpha threshold gain (rgb_of p))). Qed.

Lemma getpixel_mask_of_inv (im : image rgba) (threshold gain : Z) (x y : nat) (v : Z) :
  getpixel (mask_of threshold gain im) x y = Ok v →
  ∃ p, getpixel im x y = Ok p ∧ v = pixel_alpha threshold gain (rgb_of p).
Proof. apply (getpixel_band_inv (λ p, pixel_alpha threshold gain (rgb_of p))). Qed.

(** * The claims *)

Local Ltac solve_wf := split; [reflexivity | repeat constructor].

(** C1. For every pixel of the source image, the mask alpha computed by the
    loop is the clamped linear ramp on [m = max(r, g, b)]: with
    [v = (m - threshold) * gain] it is 0 when [v <= 0], 255 when [v >= 255]
    and [v] otherwise; for a non-negative gain it is 0 whenever
    [m <= threshold]. *)
Theorem mask_alpha_clamped_ramp (im : image rgba) (threshold gain : Z)
    (x y : nat) (p : rgba) :
  wf_image im → 0 ≤ threshold → 0 ≤ gain →
  getpixel im x y = Ok p →
  ∃ (mask : image Z) (α : Z),
    alpha_mask im threshold gain = Ok mask ∧
    getpixel mask x y = Ok α ∧
    let m := max_channel p in
    let v := (m - threshold) * gain in
    (v ≤ 0 → α = 0) ∧ (255 ≤ v → α = 255) ∧ (0 < v < 255 → α = v) ∧
    (m ≤ threshold → α = 0).
Proof.
  intros Hwf _ Hgain Hget.
  exists (mask_of threshold gain im), (pixel_alpha threshold gain (rgb_of p)).
  split; [by apply alpha_mask_eq|]. split; [by apply getpixel_mask_of|].
  rewrite pixel_alpha_ramp. cbv zeta.
  repeat case_bool_decide; repeat split; intros; nia.
Qed.

Lemma mask_alpha_clamped_ramp_witness :
  ∃ (mask : image Z) (α : Z),
    alpha_mask strip 6 18 = Ok mask ∧
    getpixel mask 1 0 = Ok α ∧
    let m := max_channel (RGBA 10 12 9 255) in
    let v := (m - 6) * 18 in
    (v ≤ 0 → α = 0) ∧ (255 ≤ v → α = 255) ∧ (0 < v < 255 → α = v) ∧
    (m ≤ 6 → α = 0).
Proof.
  apply (mask_alpha_clamped_ramp strip 6 18 1 0 (RGBA 10 12 9 255));
    [solve_wf | lia | lia | reflexivity].
Defined.

(** C5. For a gain of at least 1, a pixel with
    [max(r, g, b) >= threshold + ceil(255 / gain)] gets alpha exactly 255. *)
Theorem bright_pixel_opaque (im : image rgba) (threshold gain : Z)
    (x y : nat) (p : rgba) :
  wf_image im → 0 ≤ threshold → 1 ≤ gain →
  getpixel im x y = Ok p →
  threshold + ceil_div 255 gain ≤ max_channel p →
  ∃ mask : image Z,
    alpha_mask im threshold gain = Ok mask ∧ getpixel mask x y = Ok 255.
Proof.
  intros Hwf _ Hgain Hget Hm. exists (mask_of threshold gain im).
  split; [by apply alpha_mask_eq|].
  rewrite (getpixel_mask_of _ _ _ _ _ _ Hget). f_equal.
  rewrite pixel_alpha_ramp. cbv zeta.
  pose proof (ceil_div_mul 255 gain ltac:(lia)).
  repeat case_bool_decide; nia.
Qed.

Lemma bright_pixel_opaque_witness :
  ∃ mask : image Z,
    alpha_mask strip 6 18 = Ok mask ∧ getpixel mask 2 0 = Ok 255.
Proof.
  apply (bright_pixel_opaque strip 6 18 2 0 (RGBA 200 40 90 255));
    [solve_wf | lia | lia | reflexivity | vm_compute; discriminate].
Defined.

(** C6. For fixed non-negative threshold and gain the alpha is monotone in
    [max(r, g, b)]: of two pixels, the one with the smaller maximum gets the
    smaller or equal alpha. *)
Theorem alpha_monotone (im1 im2 : image rgba) (threshold gain : Z)
    (x1 y1 x2 y2 : nat) (p1 p2 : rgba) :
  wf_image im1 → wf_image im2 → 0 ≤ threshold → 0 ≤ gain →
  getpixel im1 x1 y1 = Ok p1 → getpixel im2 x2 y2 = Ok p2 →
  max_channel p1 ≤ max_channel p2 →
  ∃ (mask1 mask2 : image Z) (α1 α2 : Z),
    alpha_mask im1 threshold gain = Ok mask1 ∧
    alpha_mask im2 threshold gain = Ok mask2 ∧
    getpixel mask1 x1 y1 = Ok α1 ∧ getpixel mask2 x2 y2 = Ok α2 ∧
    α1 ≤ α2.
Proof.
  intros Hwf1 Hwf2 _ Hgain Hget1 Hget2 Hm.
  exists (mask_of threshold gain im1), (mask_of threshold gain im2),
    (pixel_alpha threshold gain (rgb_of p1)), (pixel_alpha threshold gain (rgb_of p2)).
  split; [by apply alpha_mask_eq|]. split; [by apply alpha_mask_eq|].
  split; [by apply getpixel_mask_of|]. split; [by apply getpixel_mask_of|].
  rewrite !pixel_alpha_ramp. cbv zeta.
  repeat case_bool_decide; nia.
Qed.

Lemma alpha_monotone_witness :
  ∃ (mask1 mask2 : image Z) (α1 α2 : Z),
    alpha_mask strip 6 18 = Ok mask1 ∧
    alpha_mask scenario 6 18 = Ok mask2 ∧
    getpixel mask1 1 0 = Ok α1 ∧ getpixel mask2 5 5 = Ok α2 ∧
    α1 ≤ α2.
Proof.
  apply (alpha_monotone strip scenario 6 18 1 0 5 5 (RGBA 10 12 9 255) white);
    [solve_wf | solve_wf | lia | lia | reflexivity | reflexivity
    | vm_compute; discriminate].
Defined.

(** C2. The 10×10 black image with one white pixel at (5, 5), processed with
    threshold 6, gain 18 and pad 2: the bounding box is (5, 5, 6, 6), the
    crop rectangle (3, 3, 8, 8), and the file written is a 5×5 image that is
    opaque white at (2, 2), the place of the original (5, 5), and has alpha 0
    everywhere else. *)
Theorem scenario_single_white_pixel :
  (mask ← alpha_mask scenario 6 18; Ok (getbbox mask)) = Ok (Some (5, 5, 6, 6)) ∧
  padded_box 10 10 2 (5, 5, 6, 6) = (3, 3, 8, 8) ∧
  render scenario 6 18 2 = Ok scenario_out ∧
  (let σ := process "in.png" "out.png" 6 18 2 (disk {["in.png" := ImageFile scenario]}) in
   σ.1 = Ok () ∧
   fs σ.2 !! "out.png" = Some (ImageFile scenario_out) ∧
   stdout σ.2 = ["Wrote out.png (5x5)"]) ∧
  width scenario_out = 5%nat ∧ height scenario_out = 5%nat ∧
  getpixel scenario_out 2 2 = Ok (RGBA 255 255 255 255) ∧
  ∀ (x y : nat) (p : rgba),
    getpixel scenario_out x y = Ok p → (x, y) ≠ (2%nat, 2%nat) → alph p = 0.
Proof.
  split; [vm_compute; reflexivity|]. split; [vm_compute; reflexivity|].
  assert (render scenario 6 18 2 = Ok scenario_out) as Hrender
    by (vm_compute; reflexivity).
  split; [exact Hrender|]. split.
  { cbv zeta. rewrite process_spec. simpl fs. rewrite lookup_singleton_eq, Hrender.
    simpl. rewrite lookup_insert_eq.
    split; [reflexivity|]. split; [reflexivity|]. vm_compute. reflexivity. }
  split; [reflexivity|]. split; [reflexivity|]. split; [reflexivity|].
  intros x y p Hget Hne.
  do 5 (try destruct y as [|y]); do 5 (try destruct x as [|x]);
    vm_compute in Hget; try discriminate Hget;
    try (injection Hget as <-; reflexivity);
    exfalso; apply Hne; reflexivity.
Qed.

(** C3. When the mask has a bounding box and the pad is non-negative, the
    padded crop rectangle stays inside the image: [0 <= x0], [0 <= y0],
    [x1 <= width] and [y1 <= height], however large the pad; the rectangle is
    not empty, so the crop succeeds with its size. *)
Theorem crop_rectangle_within_image (im : image rgba) (threshold gain pad : Z)
    (mask : image Z) (bbox : box) (x0 y0 x1 y1 : Z) :
  wf_image im → 0 ≤ pad →
  alpha_mask im threshold gain = Ok mask →
  getbbox mask = Some bbox →
  padded_box (width im) (height im) pad bbox = (x0, y0, x1, y1) →
  0 ≤ x0 ∧ 0 ≤ y0 ∧
  x1 ≤ Z.of_nat (width im) ∧ y1 ≤ Z.of_nat (height im) ∧
  x0 < x1 ∧ y0 < y1 ∧
  ∃ cropped : image Z,
    crop_to_content (width im) (height im) pad mask = Ok cropped ∧
    Z.of_nat (width cropped) = x1 - x0 ∧ Z.of_nat (height cropped) = y1 - y0.
Proof.
  intros Hwf Hpad Hmask Hbbox Hpb.
  rewrite alpha_mask_eq in Hmask by done. injection Hmask as <-.
  apply getbbox_Some in Hbbox as Hin; [|by apply wf_band]. destruct Hin as [Hin _].
  simpl in Hin.
  destruct (padded_box_spec (width im) (height im) pad bbox Hpad Hin) as [_ Hw].
  rewrite Hpb in Hw. unfold within in Hw.
  repeat (split; [lia|]).
  unfold crop_to_content. rewrite Hbbox, Hpb.
  destruct (crop_ok (mask_of threshold gain im) x0 y0 x1 y1) as (a' & -> & Hw' & Hh' & _);
    [lia..|].
  exists a'. split; [done|]. lia.
Qed.

Lemma crop_rectangle_within_image_witness :
  0 ≤ 0 ∧ 0 ≤ 0 ∧
  10 ≤ Z.of_nat (width scenario) ∧ 10 ≤ Z.of_nat (height scenario) ∧
  0 < 10 ∧ 0 < 10 ∧
  ∃ cropped : image Z,
    crop_to_content (width scenario) (height scenario) 24
      (mask_of 6 18 scenario) = Ok cropped ∧
    Z.of_nat (width cropped) = 10 - 0 ∧ Z.of_nat (height cropped) = 10 - 0.
Proof.
  apply (crop_rectangle_within_image scenario 6 18 24 (mask_of 6 18 scenario)
           (5, 5, 6, 6) 0 0 10 10);
    [solve_wf | lia | reflexivity | reflexivity | reflexivity].
Defined.

(** C4. When every pixel of the source has [max(r, g, b) <= threshold] (and
    the gain is non-negative), the mask has no non-zero pixel, there is no
    bounding box and no crop, and the output has the size of the source with
    alpha 0 at every pixel. *)
Theorem dark_image_not_cropped (im : image rgba) (threshold gain pad : Z) :
  wf_image im → 0 ≤ gain →
  (∀ (x y : nat) (p : rgba), getpixel im x y = Ok p → max_channel p ≤ threshold) →
  ∃ (mask : image Z) (out : image rgba),
    alpha_mask im threshold gain = Ok mask ∧
    (∀ (x y : nat) (v : Z), getpixel mask x y = Ok v → v = 0) ∧
    getbbox mask = None ∧
    crop_to_content (width im) (height im) pad mask = Ok mask ∧
    render im threshold gain pad = Ok out ∧
    width out = width im ∧ height out = height im ∧
    ∀ x y : nat, (x < width im)%nat → (y < height im)%nat →
      getpixel out x y = Ok white_transparent.
Proof.
  intros Hwf Hgain Hdark.
  set (mask := mask_of threshold gain im).
  assert (∀ (x y : nat) (v : Z), getpixel mask x y = Ok v → v = 0) as Hzero.
  { intros x y v (p & Hget & ->)%getpixel_mask_of_inv.
    rewrite pixel_alpha_ramp. cbv zeta. specialize (Hdark x y p Hget).
    repeat case_bool_decide; nia. }
  assert (getbbox mask = None) as Hnone.
  { apply getbbox_None. apply elem_of_nil_inv.
    intros c (x & y & v & _ & Hget & Hv)%elem_of_nonzero_coords.
    by apply Hv, (Hzero x y). }
  assert (crop_to_content (width im) (height im) pad mask = Ok mask) as Hcrop.
  { unfold crop_to_content. by rewrite Hnone. }
  exists mask, (silhouette mask).
  split; [by apply alpha_mask_eq|]. split; [done|]. split; [done|]. split; [done|].
  split; [rewrite render_eq by done; fold mask; by rewrite Hcrop|].
  split; [done|]. split; [done|].
  intros x y Hx Hy.
  destruct (getpixel_in_range mask x y) as [v Hv]; [by apply wf_band|done..|].
  unfold silhouette. rewrite (getpixel_band _ _ _ _ _ Hv).
  by rewrite (Hzero x y v Hv).
Qed.

Lemma dark_image_not_cropped_witness :
  ∃ (mask : image Z) (out : image rgba),
    alpha_mask dark 6 18 = Ok mask ∧
    (∀ (x y : nat) (v : Z), getpixel mask x y = Ok v → v = 0) ∧
    getbbox mask = None ∧
    crop_to_content (width dark) (height dark) 24 mask = Ok mask ∧
    render dark 6 18 24 = Ok out ∧
    width out = width dark ∧ height out = height dark ∧
    ∀ x y : nat, (x < width dark)%nat → (y < height dark)%nat →
      getpixel out x y = Ok white_transparent.
Proof.
  apply (dark_image_not_cropped dark 6 18 24); [solve_wf | lia |].
  intros x y p Hget.
  do 2 (try destruct y as [|y]); do 2 (try destruct x as [|x]);
    vm_compute in Hget; try discriminate; injection Hget as <-;
    vm_compute; discriminate.
Defined.

(** Outside the parameter domain: with a negative gain the ramp is reversed
    and a pixel below the threshold gets a non-zero alpha. *)
Example negative_gain_reverses_ramp :
  alpha_mask dark 6 (-1) ≫= (λ mask, getpixel mask 0 0) = Ok 6.
Proof. vm_compute. reflexivity. Qed.

(** Outside the parameter domain: with a negative pad the rectangle can turn
    inside out, and the crop raises. *)
Example negative_pad_raises :
  padded_box 10 10 (-1) (5, 5, 6, 6) = (6, 6, 5, 5) ∧
  render scenario 6 18 (-1) = Raise ValueError.
Proof. split; vm_compute; reflexivity. Qed.

(** C10. Cropping discards no content: when the mask has a non-zero pixel and
    the pad is non-negative, the padded, clamped crop rectangle contains the
    bounding box, and every pixel with non-zero alpha in the full-size mask
    is found in the output, shifted by the crop origin, with that alpha. *)
Theorem crop_keeps_content (im : image rgba) (threshold gain pad : Z)
    (mask : image Z) (x y : nat) (v : Z) :
  wf_image im → 0 ≤ pad →
  alpha_mask im threshold gain = Ok mask →
  getpixel mask x y = Ok v → v ≠ 0 →
  ∃ (bbox : box) (x0 y0 x1 y1 : Z) (out : image rgba),
    getbbox mask = Some bbox ∧
    padded_box (width im) (height im) pad bbox = (x0, y0, x1, y1) ∧
    box_le bbox (x0, y0, x1, y1) ∧
    render im threshold gain pad = Ok out ∧
    ∀ (x' y' : nat) (v' : Z), getpixel mask x' y' = Ok v' → v' ≠ 0 →
      x0 ≤ Z.of_nat x' < x1 ∧ y0 ≤ Z.of_nat y' < y1 ∧
      getpixel out (Z.to_nat (Z.of_nat x' - x0)) (Z.to_nat (Z.of_nat y' - y0))
      = Ok (RGBA 255 255 255 v').
Proof.
  intros Hwf Hpad Hmask Hget Hv.
  rewrite alpha_mask_eq in Hmask by done. injection Hmask as <-.
  set (mask := mask_of threshold gain im) in *.
  assert (wf_image mask) as Hwfm by (by apply wf_band).
  destruct (getbbox mask) as [bbox|] eqn:Hbbox; last first.
  { apply getbbox_None in Hbbox.
    assert ((Z.of_nat x, Z.of_nat y) ∈ nonzero_coords mask) as Hc.
    { apply elem_of_nonzero_coords. by exists x, y, v. }
    rewrite Hbbox in Hc. by apply not_elem_of_nil in Hc. }
  destruct (getbbox_Some mask bbox Hwfm Hbbox) as [Hin Hcover]. simpl in Hin.
  destruct (padded_box_spec (width im) (height im) pad bbox Hpad Hin) as [Hle Hw].
  destruct (padded_box (width im) (height im) pad bbox) as [[[x0 y0] x1] y1] eqn:Hpb.
  unfold within in Hw.
  destruct (crop_ok mask x0 y0 x1 y1) as (a' & Hcrop & Hw' & Hh' & Hpx); [lia..|].
  exists bbox, x0, y0, x1, y1, (silhouette a').
  split; [done|]. split; [done|]. split; [done|]. split.
  { rewrite render_eq by done. fold mask. unfold crop_to_content.
    by rewrite Hbbox, Hpb, Hcrop. }
  intros x' y' v' Hget' Hv'.
  pose proof (box_le_inside _ _ _ Hle (Hcover x' y' v' Hget' Hv')) as Hins.
  unfold inside in Hins. split; [lia|]. split; [lia|].
  unfold silhouette. erewrite getpixel_band; [done|].
  rewrite Hpx by lia. f_equal.
  replace (x0 + Z.of_nat (Z.to_nat (Z.of_nat x' - x0))) with (Z.of_nat x') by lia.
  replace (y0 + Z.of_nat (Z.to_nat (Z.of_nat y' - y0))) with (Z.of_nat y') by lia.
  by apply pixel_or_zero_get.
Qed.

Lemma crop_keeps_content_witness :
  ∃ (bbox : box) (x0 y0 x1 y1 : Z) (out : image rgba),
    getbbox (mask_of 6 18 scenario) = Some bbox ∧
    padded_box (width scenario) (height scenario) 2 bbox = (x0, y0, x1, y1) ∧
    box_le bbox (x0, y0, x1, y1) ∧
    render scenario 6 18 2 = Ok out ∧
    ∀ (x' y' : nat) (v' : Z),
      getpixel (mask_of 6 18 scenario) x' y' = Ok v' → v' ≠ 0 →
      x0 ≤ Z.of_nat x' < x1 ∧ y0 ≤ Z.of_nat y' < y1 ∧
      getpixel out (Z.to_nat (Z.of_nat x' - x0)) (Z.to_nat (Z.of_nat y' - y0))
      = Ok (RGBA 255 255 255 v').
Proof.
  apply (crop_keeps_content scenario 6 18 2 (mask_of 6 18 scenario) 5 5 255);
    [solve_wf | lia | reflexivity | reflexivity | discriminate].
Defined.

(** ** Runs of [process] *)

Lemma band_band {A B C} (f : A → B) (g : B → C) (im : image A) :
  band g (band f im) = band (g ∘ f) im.
Proof.
  unfold band. simpl. f_equal. rewrite <-list_fmap_compose.
  apply list_fmap_ext. intros _ row _. simpl. by rewrite <-list_fmap_compose.
Qed.

(** [render] reads the colour bands only. *)
Lemma render_rgb (im1 im2 : image rgba) (threshold gain pad : Z) :
  band rgb_of im1 = band rgb_of im2 →
  render im1 threshold gain pad = render im2 threshold gain pad.
Proof.
  intros Hrgb.
  assert (∀ f : Z * Z * Z → Z, band (f ∘ rgb_of) im1 = band (f ∘ rgb_of) im2) as Hband.
  { intros f. by rewrite <-!band_band, Hrgb. }
  pose proof (Hband (λ c, c.1.1)) as Hr.
  pose proof (Hband (λ c, c.1.2)) as Hg.
  pose proof (Hband (λ c, c.2)) as Hb.
  change (band red im1 = band red im2) in Hr.
  change (band green im1 = band green im2) in Hg.
  change (band blue im1 = band blue im2) in Hb.
  unfold render, split. by rewrite Hr, Hg, Hb.
Qed.

(** A well-formed image and a non-negative pad always render. *)
Lemma render_total (im : image rgba) (threshold gain pad : Z) :
  wf_image im → 0 ≤ pad → ∃ out, render im threshold gain pad = Ok out.
Proof.
  intros Hwf Hpad. rewrite render_eq by done.
  set (mask := mask_of threshold gain im).
  unfold crop_to_content. destruct (getbbox mask) as [bbox|] eqn:Hbbox; [|by eexists].
  destruct (getbbox_Some mask bbox) as [Hin _]; [by apply wf_band|done|].
  simpl in Hin.
  destruct (padded_box_spec (width im) (height im) pad bbox Hpad Hin) as [_ Hw].
  destruct (padded_box _ _ _ _) as [[[x0 y0] x1] y1]. unfold within in Hw.
  destruct (crop_ok mask x0 y0 x1 y1) as (a' & -> & _); [lia..|]. by eexists.
Qed.

(** The steps before the save neither write nor print. *)
Lemma prepare_spec (src_path : string) (threshold gain pad : Z) (σ : world) :
  prepare src_path threshold gain pad σ =
  match fs σ !! src_path with
  | None => (Raise FileNotFoundError, σ)
  | Some (NotAnImage _) => (Raise UnidentifiedImageError, σ)
  | Some (ImageFile im) => (render im threshold gain pad, σ)
  end.
Proof.
  unfold prepare, mbind, IO_bind, Image_open, lift.
  by destruct (fs σ !! src_path) as [[im|data]|].
Qed.

(** [process] is [prepare], then [save], then [print]. *)
Lemma process_prepare (src_path dst_path : string) (threshold gain pad : Z) (σ : world) :
  process src_path dst_path threshold gain pad σ =
  (out ← prepare src_path threshold gain pad;
   Image_save out dst_path;;
   print (status_line dst_path out)) σ.
Proof.
  unfold process, prepare, mbind, IO_bind, Image_open, lift.
  destruct (fs σ !! src_path) as [[im|data]|]; [|done..].
  by destruct (render im threshold gain pad).
Qed.

(** A second run on an untouched source rewrites the same file. *)
Lemma process_rerun (src_path dst_path : string) (threshold gain pad : Z)
    (σ σ' : world) :
  src_path ≠ dst_path →
  process src_path dst_path threshold gain pad σ = (Ok (), σ') →
  ∃ σ'', process src_path dst_path threshold gain pad σ' = (Ok (), σ'') ∧
         fs σ'' = fs σ'.
Proof.
  intros Hne. rewrite !process_spec.
  destruct (fs σ !! src_path) as [[im|data]|] eqn:Hsrc; [|done..].
  destruct (render im threshold gain pad) as [out|e] eqn:Hrender; [|done].
  destruct (writable σ dst_path) eqn:Hwr; last first.
  { by destruct (failed_save_spec dst_path σ) as (e & σ0 & -> & _). }
  intros [= <-]. simpl. rewrite lookup_insert_ne, Hsrc, Hrender, Hwr by done.
  eexists; split; [done|]. simpl. by rewrite insert_insert_eq.
Qed.

(** C7. [process] is deterministic: two runs with the same parameters on the
    same source file, in any two states of the file system in which a save
    at the destination behaves alike, either both write the same image,
    pixel for pixel and of the same size, and print the same line, or both
    raise the same exception and print nothing. *)
Theorem process_deterministic (src_path dst_path : string)
    (threshold gain pad : Z) (σ1 σ2 : world) :
  fs σ1 !! src_path = fs σ2 !! src_path →
  writable σ1 dst_path = writable σ2 dst_path →
  save_failure σ1 dst_path = save_failure σ2 dst_path →
  let r1 := process src_path dst_path threshold gain pad σ1 in
  let r2 := process src_path dst_path threshold gain pad σ2 in
  (∃ out : image rgba,
     r1.1 = Ok () ∧ r2.1 = Ok () ∧
     fs r1.2 !! dst_path = Some (ImageFile out) ∧
     fs r2.2 !! dst_path = Some (ImageFile out) ∧
     stdout r1.2 = stdout σ1 ++ [status_line dst_path out] ∧
     stdout r2.2 = stdout σ2 ++ [status_line dst_path out]) ∨
  (∃ e : exn,
     r1.1 = Raise e ∧ r2.1 = Raise e ∧
     stdout r1.2 = stdout σ1 ∧ stdout r2.2 = stdout σ2).
Proof.
  intros Hsrc Hwr Hfail. cbv zeta. rewrite !process_spec, <-Hsrc, <-Hwr.
  destruct (fs σ1 !! src_path) as [[im|data]|]; [|right; by eexists..].
  destruct (render im threshold gain pad) as [out|e]; [|right; by eexists].
  destruct (writable σ1 dst_path).
  - left. exists out. simpl. by rewrite !lookup_insert_eq.
  - right.
    destruct (failed_save_spec dst_path σ1) as (e1 & τ1 & -> & He1 & Hout1 & _).
    destruct (failed_save_spec dst_path σ2) as (e2 & τ2 & -> & He2 & Hout2 & _).
    exists e1. cbn [fst snd]. rewrite He2, <-Hfail, <-He1. done.
Qed.

Lemma process_deterministic_witness :
  let σ1 := disk {["in.png" := ImageFile strip]} in
  let σ2 := disk {["in.png" := ImageFile strip; "out.png" := NotAnImage "old"]} in
  let r1 := process "in.png" "out.png" 6 18 24 σ1 in
  let r2 := process "in.png" "out.png" 6 18 24 σ2 in
  (∃ out : image rgba,
     r1.1 = Ok () ∧ r2.1 = Ok () ∧
     fs r1.2 !! "out.png" = Some (ImageFile out) ∧
     fs r2.2 !! "out.png" = Some (ImageFile out) ∧
     stdout r1.2 = stdout σ1 ++ [status_line "out.png" out] ∧
     stdout r2.2 = stdout σ2 ++ [status_line "out.png" out]) ∨
  (∃ e : exn,
     r1.1 = Raise e ∧ r2.1 = Raise e ∧
     stdout r1.2 = stdout σ1 ∧ stdout r2.2 = stdout σ2).
Proof.
  apply (process_deterministic "in.png" "out.png" 6 18 24
           (disk {["in.png" := ImageFile strip]})
           (disk {["in.png" := ImageFile strip; "out.png" := NotAnImage "old"]}));
    [vm_compute; reflexivity | reflexivity | reflexivity].
Defined.

(** C8. The output does not depend on the alpha channel of the source: for
    two source images with the same red, green and blue at every pixel, runs
    of [process] with the same parameters render the same image, and either
    both write it and print the same line or both raise the same exception
    and print nothing. *)
Theorem process_ignores_source_alpha (src_path dst_path : string)
    (threshold gain pad : Z) (σ1 σ2 : world) (im1 im2 : image rgba) :
  fs σ1 !! src_path = Some (ImageFile im1) →
  fs σ2 !! src_path = Some (ImageFile im2) →
  band rgb_of im1 = band rgb_of im2 →
  writable σ1 dst_path = writable σ2 dst_path →
  save_failure σ1 dst_path = save_failure σ2 dst_path →
  let r1 := process src_path dst_path threshold gain pad σ1 in
  let r2 := process src_path dst_path threshold gain pad σ2 in
  render im1 threshold gain pad = render im2 threshold gain pad ∧
  ((∃ out : image rgba,
      r1.1 = Ok () ∧ r2.1 = Ok () ∧
      fs r1.2 !! dst_path = Some (ImageFile out) ∧
      fs r2.2 !! dst_path = Some (ImageFile out) ∧
      stdout r1.2 = stdout σ1 ++ [status_line dst_path out] ∧
      stdout r2.2 = stdout σ2 ++ [status_line dst_path out]) ∨
   (∃ e : exn,
      r1.1 = Raise e ∧ r2.1 = Raise e ∧
      stdout r1.2 = stdout σ1 ∧ stdout r2.2 = stdout σ2)).
Proof.
  intros Hsrc1 Hsrc2 Hrgb Hwr Hfail. cbv zeta.
  pose proof (render_rgb im1 im2 threshold gain pad Hrgb) as Hrender.
  split; [done|].
  rewrite !process_spec, Hsrc1, Hsrc2, <-Hrender, <-Hwr.
  destruct (render im1 threshold gain pad) as [out|e]; [|right; by eexists].
  destruct (writable σ1 dst_path).
  - left. exists out. simpl. by rewrite !lookup_insert_eq.
  - right.
    destruct (failed_save_spec dst_path σ1) as (e1 & τ1 & -> & He1 & Hout1 & _).
    destruct (failed_save_spec dst_path σ2) as (e2 & τ2 & -> & He2 & Hout2 & _).
    exists e1. cbn [fst snd]. rewrite He2, <-Hfail, <-He1. done.
Qed.

Lemma process_ignores_source_alpha_witness :
  let σ1 := disk {["in.png" := ImageFile strip]} in
  let σ2 := disk {["in.png" := ImageFile strip_faded]} in
  let r1 := process "in.png" "out.png" 6 18 24 σ1 in
  let r2 := process "in.png" "out.png" 6 18 24 σ2 in
  render strip 6 18 24 = render strip_faded 6 18 24 ∧
  ((∃ out : image rgba,
      r1.1 = Ok () ∧ r2.1 = Ok () ∧
      fs r1.2 !! "out.png" = Some (ImageFile out) ∧
      fs r2.2 !! "out.png" = Some (ImageFile out) ∧
      stdout r1.2 = stdout σ1 ++ [status_line "out.png" out] ∧
      stdout r2.2 = stdout σ2 ++ [status_line "out.png" out]) ∨
   (∃ e : exn,
      r1.1 = Raise e ∧ r2.1 = Raise e ∧
      stdout r1.2 = stdout σ1 ∧ stdout r2.2 = stdout σ2)).
Proof.
  apply (process_ignores_source_alpha "in.png" "out.png" 6 18 24
           (disk {["in.png" := ImageFile strip]})
           (disk {["in.png" := ImageFile strip_faded]}) strip strip_faded);
    [vm_compute; reflexivity | vm_compute; reflexivity | reflexivity
    | reflexivity | reflexivity].
Defined.

(** C9. The destination file is written only after all processing has
    completed: when a step before the save raises (decoding, masking,
    cropping or compositing), [process] raises the same exception and leaves
    the file system, the destination path included, and the standard output
    as they were. *)
Theorem failure_before_save_writes_nothing (src_path dst_path : string)
    (threshold gain pad : Z) (σ σ' : world) (e : exn) :
  prepare src_path threshold gain pad σ = (Raise e, σ') →
  process src_path dst_path threshold gain pad σ = (Raise e, σ) ∧
  fs (process src_path dst_path threshold gain pad σ).2 !! dst_path
  = fs σ !! dst_path.
Proof.
  rewrite prepare_spec, process_spec.
  destruct (fs σ !! src_path) as [[im|data]|].
  - destruct (render im threshold gain pad) as [out|e']; [done|].
    by intros [= -> _].
  - by intros [= <- _].
  - by intros [= <- _].
Qed.

Lemma failure_before_save_writes_nothing_witness :
  process "missing.png" "out.png" 6 18 24 (disk {["out.png" := ImageFile strip]})
  = (Raise FileNotFoundError, disk {["out.png" := ImageFile strip]}) ∧
  fs (process "missing.png" "out.png" 6 18 24
        (disk {["out.png" := ImageFile strip]})).2 !! "out.png"
  = fs (disk {["out.png" := ImageFile strip]}) !! "out.png".
Proof.
  apply (failure_before_save_writes_nothing "missing.png" "out.png" 6 18 24
           (disk {["out.png" := ImageFile strip]})
           (disk {["out.png" := ImageFile strip]}) FileNotFoundError).
  vm_compute. reflexivity.
Defined.

(** The converse reading: whenever a run changes the file system, every
    step before the save had succeeded, and the change is at the destination
    path: the finished image, or what a failed save left there. *)
Lemma write_only_after_prepare (src_path dst_path : string)
    (threshold gain pad : Z) (σ : world) :
  fs (process src_path dst_path threshold gain pad σ).2 ≠ fs σ →
  ∃ out : image rgba,
    prepare src_path threshold gain pad σ = (Ok out, σ) ∧
    (fs (process src_path dst_path threshold gain pad σ).2
     = <[dst_path := ImageFile out]> (fs σ) ∨
     ∃ data, fs (process src_path dst_path threshold gain pad σ).2
             = <[dst_path := NotAnImage data]> (fs σ)).
Proof.
  rewrite prepare_spec, process_spec.
  destruct (fs σ !! src_path) as [[im|data]|]; [|done..].
  destruct (render im threshold gain pad) as [out|e']; [|done].
  destruct (writable σ dst_path); [exists out; by eauto|].
  destruct (failed_save_spec dst_path σ) as (e & σ' & -> & _ & _ & _ & _ & _ & Hfs).
  cbn [snd]. intros Hne. exists out. split; [done|].
  destruct Hfs as [Heq|Hdata]; [by destruct Hne|by right].
Qed.

(** * Further properties of [process] and of the two runs of the script *)

(** ** Helper facts on crops and bounding boxes *)

Lemma crop_inv (a a' : image Z) (x0 y0 x1 y1 : Z) :
  crop a (x0, y0, x1, y1) = Ok a' →
  x0 ≤ x1 ∧ y0 ≤ y1 ∧
  Z.of_nat (width a') = x1 - x0 ∧ Z.of_nat (height a') = y1 - y0 ∧
  ∀ (i j : nat) (v : Z), getpixel a' i j = Ok v →
    Z.of_nat i < x1 - x0 ∧ Z.of_nat j < y1 - y0 ∧
    v = pixel_or_zero a (x0 + Z.of_nat i) (y0 + Z.of_nat j).
Proof.
  intros Hcrop.
  assert (x0 ≤ x1 ∧ y0 ≤ y1) as [Hx Hy].
  { unfold crop in Hcrop. repeat case_bool_decide; try discriminate Hcrop. lia. }
  destruct (crop_ok a x0 y0 x1 y1 Hx Hy) as (a'' & Hcrop' & Hw & Hh & Hpx).
  rewrite Hcrop in Hcrop'. injection Hcrop' as <-.
  split; [done|]. split; [done|]. split; [lia|]. split; [lia|].
  intros i j v Hget.
  destruct (getpixel_lt a' i j v) as [Hi Hj]; [by eapply wf_crop|done|].
  assert (Z.of_nat i < x1 - x0) as Hi' by lia.
  assert (Z.of_nat j < y1 - y0) as Hj' by lia.
  rewrite (Hpx i j Hi' Hj') in Hget. injection Hget as <-. done.
Qed.

Lemma pixel_or_zero_cases (a : image Z) (x y : Z) :
  pixel_or_zero a x y = 0 ∨
  ∃ i j : nat, x = Z.of_nat i ∧ y = Z.of_nat j ∧
               getpixel a i j = Ok (pixel_or_zero a x y).
Proof.
  unfold pixel_or_zero, getpixel. case_bool_decide as Hxy; [|by left].
  destruct (rows a !! Z.to_nat y ≫= _) as [v|] eqn:Hv; [|by left].
  right. exists (Z.to_nat x), (Z.to_nat y). rewrite Hv. simpl.
  split; [lia|]. split; [lia|done].
Qed.

(** The whole image as a crop box gives the image back. *)
Lemma crop_full (a : image Z) :
  wf_image a →
  crop a (0, 0, Z.of_nat (width a), Z.of_nat (height a)) = Ok a.
Proof.
  intros [Hh Hw]. unfold crop. rewrite !bool_decide_false by lia.
  destruct a as [w h rs]. simpl in *. rewrite !Z.sub_0_r, !Nat2Z.id. do 2 f_equal.
  apply list_eq. intros j. rewrite list_lookup_fmap.
  destruct (decide (j < h)%nat) as [Hj|Hj]; last first.
  { rewrite lookup_seqZ_ge, (lookup_ge_None_2 rs j) by lia. done. }
  destruct (lookup_lt_is_Some_2 rs j) as [row Hrow]; [lia|].
  rewrite lookup_seqZ_lt, Hrow by lia. cbn [fmap option_fmap option_map]. f_equal.
  pose proof (Forall_lookup_1 _ _ _ _ Hw Hrow) as Hlen. cbn beta in Hlen.
  apply list_eq. intros i. rewrite list_lookup_fmap.
  destruct (decide (i < w)%nat) as [Hi|Hi]; last first.
  { rewrite lookup_seqZ_ge, (lookup_ge_None_2 row i) by lia. done. }
  destruct (lookup_lt_is_Some_2 row i) as [v Hv]; [lia|].
  rewrite lookup_seqZ_lt, Hv by lia. cbn [fmap option_fmap option_map]. f_equal.
  unfold pixel_or_zero. rewrite bool_decide_true by lia. cbn [rows].
  rewrite ?Z.add_0_l, ?Nat2Z.id, Hrow. cbn [mbind option_bind]. by rewrite Hv.
Qed.

Lemma foldl_extend_attained (cs : list (Z * Z)) : ∀ (b : box) (seen : list (Z * Z)),
  attained seen b →
  ∃ b', foldl extend (Some b) cs = Some b' ∧ attained (seen ++ cs) b'.
Proof.
  induction cs as [|c cs IH]; intros b seen Hb; simpl.
  - exists b. by rewrite (right_id_L [] (++)).
  - destruct b as [[[x0 y0] x1] y1], c as [x y].
    destruct Hb as ((cx0 & Hcx0 & Ex0) & (cy0 & Hcy0 & Ey0) &
                    (cx1 & Hcx1 & Ex1) & (cy1 & Hcy1 & Ey1)).
    destruct (IH (Z.min x0 x, Z.min y0 y, Z.max x1 (x + 1), Z.max y1 (y + 1))
                (seen ++ [(x, y)])) as (b' & Hfold & Hatt).
    { unfold attained. repeat split.
      - destruct (Z.min_spec x0 x) as [[_ ->]|[_ ->]].
        + exists cx0. split; [apply elem_of_app; by left|done].
        + exists (x, y). split; [apply elem_of_app; right; by apply list_elem_of_singleton|done].
      - destruct (Z.min_spec y0 y) as [[_ ->]|[_ ->]].
        + exists cy0. split; [apply elem_of_app; by left|done].
        + exists (x, y). split; [apply elem_of_app; right; by apply list_elem_of_singleton|done].
      - destruct (Z.max_spec x1 (x + 1)) as [[_ ->]|[_ ->]].
        + exists (x, y). split; [apply elem_of_app; right; by apply list_elem_of_singleton|done].
        + exists cx1. split; [apply elem_of_app; by left|done].
      - destruct (Z.max_spec y1 (y + 1)) as [[_ ->]|[_ ->]].
        + exists (x, y). split; [apply elem_of_app; right; by apply list_elem_of_singleton|done].
        + exists cy1. split; [apply elem_of_app; by left|done]. }
    exists b'. split; [done|]. by rewrite <-(assoc_L (++)) in Hatt.
Qed.

Lemma getbbox_attained (a : image Z) (b : box) :
  getbbox a = Some b → attained (nonzero_coords a) b.
Proof.
  unfold getbbox. destruct (nonzero_coords a) as [|[x y] cs]; [done|].
  change (foldl extend None ((x, y) :: cs))
    with (foldl extend (Some (x, y, x + 1, y + 1)) cs).
  destruct (foldl_extend_attained cs (x, y, x + 1, y + 1) [(x, y)]) as (b' & -> & Hatt).
  - unfold attained. repeat split; exists (x, y);
      (split; [by apply list_elem_of_singleton|done]).
  - by intros [= <-].
Qed.

(** With a bounding box and a non-negative pad, [render] is the silhouette
    of the mask cropped to the padded box. *)
Lemma render_cropped (im : image rgba) (threshold gain pad : Z)
    (bbox : box) (x0 y0 x1 y1 : Z) :
  wf_image im → 0 ≤ pad →
  getbbox (mask_of threshold gain im) = Some bbox →
  padded_box (width im) (height im) pad bbox = (x0, y0, x1, y1) →
  ∃ a' : image Z,
    crop (mask_of threshold gain im) (x0, y0, x1, y1) = Ok a' ∧
    render im threshold gain pad = Ok (silhouette a') ∧
    within (Z.of_nat (width im)) (Z.of_nat (height im)) (x0, y0, x1, y1) ∧
    box_le bbox (x0, y0, x1, y1).
Proof.
  intros Hwf Hpad Hbbox Hpb.
  destruct (getbbox_Some _ bbox (wf_band _ im Hwf) Hbbox) as [Hin _].
  cbn [mask_of band width height] in Hin.
  destruct (padded_box_spec (width im) (height im) pad bbox Hpad Hin) as [Hle Hw].
  rewrite Hpb in Hle, Hw.
  destruct (crop_ok (mask_of threshold gain im) x0 y0 x1 y1) as (a' & Hcrop & _);
    [unfold within in Hw; lia..|].
  exists a'. split; [done|]. split; [|done].
  rewrite render_eq by done. unfold crop_to_content. by rewrite Hbbox, Hpb, Hcrop.
Qed.

Lemma getpixel_silhouette (a : image Z) (x y : nat) (v : Z) :
  getpixel a x y = Ok v → getpixel (silhouette a) x y = Ok (RGBA 255 255 255 v).
Proof. apply (getpixel_band (set_alpha white_transparent)). Qed.

Lemma getpixel_silhouette_inv (a : image Z) (x y : nat) (p : rgba) :
  getpixel (silhouette a) x y = Ok p →
  ∃ v, getpixel a x y = Ok v ∧ p = RGBA 255 255 255 v.
Proof. apply (getpixel_band_inv (set_alpha white_transparent)). Qed.

(** Every value a crop of the mask can hold is an 8-bit value. *)
Lemma pixel_or_zero_mask_range (im : image rgba) (threshold gain x y : Z) :
  0 ≤ pixel_or_zero (mask_of threshold gain im) x y ≤ 255.
Proof.
  destruct (pixel_or_zero_cases (mask_of threshold gain im) x y)
    as [->|(i & j & _ & _ & Hget)]; [lia|].
  apply getpixel_mask_of_inv in Hget as (p & _ & ->). apply pixel_alpha_range.
Qed.

(** ** The output image *)

(** X1. Whatever the integer parameters, an image that [process] renders is
    a well-formed buffer in which every pixel is white (255, 255, 255) and
    every alpha is an 8-bit value: the colour of the source never reaches
    the output. *)
Theorem output_is_white_silhouette (im : image rgba) (threshold gain pad : Z)
    (out : image rgba) :
  wf_image im →
  render im threshold gain pad = Ok out →
  wf_image out ∧
  ∀ (x y : nat) (p : rgba), getpixel out x y = Ok p →
    red p = 255 ∧ green p = 255 ∧ blue p = 255 ∧ 0 ≤ alph p ≤ 255.
Proof.
  intros Hwf. rewrite render_eq by done.
  destruct (crop_to_content _ _ _ _) as [alpha|e] eqn:Hcrop; [|done].
  intros [= <-]. split.
  { apply wf_band. eapply wf_crop_to_content; [|done]. by apply wf_band. }
  intros x y p (v & Hget & ->)%getpixel_silhouette_inv. cbn [red green blue alph].
  repeat (split; [reflexivity|]).
  unfold crop_to_content in Hcrop.
  destruct (getbbox _) as [bbox|].
  - destruct (padded_box _ _ _ _) as [[[x0 y0] x1] y1].
    apply crop_inv in Hcrop as (_ & _ & _ & _ & Hpx).
    destruct (Hpx x y v Hget) as (_ & _ & ->). apply pixel_or_zero_mask_range.
  - injection Hcrop as <-.
    apply getpixel_mask_of_inv in Hget as (q & _ & ->). apply pixel_alpha_range.
Qed.

Lemma output_is_white_silhouette_witness :
  wf_image scenario_out ∧
  ∀ (x y : nat) (p : rgba), getpixel scenario_out x y = Ok p →
    red p = 255 ∧ green p = 255 ∧ blue p = 255 ∧ 0 ≤ alph p ≤ 255.
Proof.
  apply (output_is_white_silhouette scenario 6 18 2 scenario_out);
    [solve_wf | vm_compute; reflexivity].
Defined.

(** X2. With a bounding box and a non-negative pad, the output has the size
    of the padded box and its pixel [(i, j)] is white with the ramp alpha of
    the source pixel at [(x0 + i, y0 + j)], where [(x0, y0)] is the corner
    of the padded box. *)
Theorem output_pixels_follow_source (im : image rgba) (threshold gain pad : Z)
    (mask : image Z) (bbox : box) (x0 y0 x1 y1 : Z) :
  wf_image im → 0 ≤ pad →
  alpha_mask im threshold gain = Ok mask →
  getbbox mask = Some bbox →
  padded_box (width im) (height im) pad bbox = (x0, y0, x1, y1) →
  ∃ out : image rgba,
    render im threshold gain pad = Ok out ∧
    Z.of_nat (width out) = x1 - x0 ∧ Z.of_nat (height out) = y1 - y0 ∧
    ∀ i j : nat, (i < width out)%nat → (j < height out)%nat →
      ∃ p : rgba,
        getpixel im (Z.to_nat (x0 + Z.of_nat i)) (Z.to_nat (y0 + Z.of_nat j)) = Ok p ∧
        getpixel out i j
        = Ok (RGBA 255 255 255 (pixel_alpha threshold gain (rgb_of p))).
Proof.
  intros Hwf Hpad Hmask Hbbox Hpb.
  rewrite alpha_mask_eq in Hmask by done. injection Hmask as <-.
  destruct (render_cropped im threshold gain pad bbox x0 y0 x1 y1)
    as (a' & Hcrop & Hrender & Hw & _); [done..|].
  unfold within in Hw.
  destruct (crop_ok (mask_of threshold gain im) x0 y0 x1 y1)
    as (a'' & Hcrop' & Hw' & Hh' & Hpx); [lia..|].
  rewrite Hcrop in Hcrop'. injection Hcrop' as <-.
  exists (silhouette a'). split; [done|].
  cbn [silhouette band width height]. split; [lia|]. split; [lia|].
  intros i j Hi Hj.
  destruct (getpixel_in_range im (Z.to_nat (x0 + Z.of_nat i))
              (Z.to_nat (y0 + Z.of_nat j))) as [p Hp]; [done|lia..|].
  exists p. split; [done|].
  apply getpixel_silhouette. rewrite Hpx by lia. f_equal.
  apply (getpixel_mask_of im threshold gain) in Hp.
  apply pixel_or_zero_get in Hp.
  by rewrite !Z2Nat.id in Hp by lia.
Qed.

Lemma output_pixels_follow_source_witness :
  ∃ out : image rgba,
    render scenario 6 18 2 = Ok out ∧
    Z.of_nat (width out) = 8 - 3 ∧ Z.of_nat (height out) = 8 - 3 ∧
    ∀ i j : nat, (i < width out)%nat → (j < height out)%nat →
      ∃ p : rgba,
        getpixel scenario (Z.to_nat (3 + Z.of_nat i)) (Z.to_nat (3 + Z.of_nat j)) = Ok p ∧
        getpixel out i j = Ok (RGBA 255 255 255 (pixel_alpha 6 18 (rgb_of p))).
Proof.
  apply (output_pixels_follow_source scenario 6 18 2 (mask_of 6 18 scenario)
           (5, 5, 6, 6) 3 3 8 8);
    [solve_wf | lia | reflexivity | reflexivity | reflexivity].
Defined.

(** X3. The padding is transparent: an output pixel whose place in the
    source lies outside the bounding box of the mask has alpha 0. *)
Theorem padding_is_transparent (im : image rgba) (threshold gain pad : Z)
    (mask : image Z) (bx0 by0 bx1 by1 x0 y0 x1 y1 : Z)
    (out : image rgba) (i j : nat) (p : rgba) :
  wf_image im → 0 ≤ pad →
  alpha_mask im threshold gain = Ok mask →
  getbbox mask = Some (bx0, by0, bx1, by1) →
  padded_box (width im) (height im) pad (bx0, by0, bx1, by1) = (x0, y0, x1, y1) →
  render im threshold gain pad = Ok out →
  getpixel out i j = Ok p →
  ¬ (bx0 ≤ x0 + Z.of_nat i < bx1 ∧ by0 ≤ y0 + Z.of_nat j < by1) →
  alph p = 0.
Proof.
  intros Hwf Hpad Hmask Hbbox Hpb Hrender Hget Hout.
  rewrite alpha_mask_eq in Hmask by done. injection Hmask as <-.
  destruct (render_cropped im threshold gain pad (bx0, by0, bx1, by1) x0 y0 x1 y1)
    as (a' & Hcrop & Hrender' & Hw & _); [done..|].
  rewrite Hrender in Hrender'. injection Hrender' as ->.
  apply getpixel_silhouette_inv in Hget as (v & Hget & ->). cbn [alph].
  apply crop_inv in Hcrop as (_ & _ & _ & _ & Hpx).
  destruct (Hpx i j v Hget) as (_ & _ & ->).
  destruct (pixel_or_zero_cases (mask_of threshold gain im)
              (x0 + Z.of_nat i) (y0 + Z.of_nat j)) as [Hz|(x & y & Hx & Hy & Hv)];
    [done|].
  destruct (decide (pixel_or_zero (mask_of threshold gain im)
                      (x0 + Z.of_nat i) (y0 + Z.of_nat j) = 0)) as [Hz|Hnz]; [done|].
  destruct (getbbox_Some _ _ (wf_band _ im Hwf) Hbbox) as [_ Hcover].
  specialize (Hcover x y _ Hv Hnz). unfold inside in Hcover.
  exfalso. apply Hout. lia.
Qed.

Lemma padding_is_transparent_witness : alph white_transparent = 0.
Proof.
  apply (padding_is_transparent scenario 6 18 2 (mask_of 6 18 scenario)
           5 5 6 6 3 3 8 8 scenario_out 0 4 white_transparent);
    [solve_wf | lia | reflexivity | reflexivity | reflexivity
    | vm_compute; reflexivity | reflexivity | lia].
Defined.

(** X4. For a non-negative pad the run always renders, and the output is
    never larger than the source; it is empty only if the source is. *)
Theorem output_no_larger_than_source (im : image rgba) (threshold gain pad : Z) :
  wf_image im → 0 ≤ pad →
  ∃ out : image rgba,
    render im threshold gain pad = Ok out ∧
    (width out ≤ width im)%nat ∧ (height out ≤ height im)%nat ∧
    ((0 < width im)%nat → (0 < height im)%nat →
     (0 < width out)%nat ∧ (0 < height out)%nat).
Proof.
  intros Hwf Hpad.
  destruct (getbbox (mask_of threshold gain im)) as [bbox|] eqn:Hbbox.
  - destruct (padded_box (width im) (height im) pad bbox) as [[[x0 y0] x1] y1] eqn:Hpb.
    destruct (render_cropped im threshold gain pad bbox x0 y0 x1 y1)
      as (a' & Hcrop & Hrender & Hw & _); [done..|].
    apply crop_inv in Hcrop as (_ & _ & Hw' & Hh' & _). unfold within in Hw.
    exists (silhouette a'). split; [done|]. cbn [silhouette band width height]. lia.
  - exists (silhouette (mask_of threshold gain im)). split.
    + rewrite render_eq by done. unfold crop_to_content. by rewrite Hbbox.
    + cbn [silhouette mask_of band width height]. lia.
Qed.

Lemma output_no_larger_than_source_witness :
  ∃ out : image rgba,
    render scenario 6 18 2 = Ok out ∧
    (width out ≤ width scenario)%nat ∧ (height out ≤ height scenario)%nat ∧
    ((0 < width scenario)%nat → (0 < height scenario)%nat →
     (0 < width out)%nat ∧ (0 < height out)%nat).
Proof. apply (output_no_larger_than_source scenario 6 18 2); [solve_wf | lia]. Defined.

(** X5. A pad at least as large as the image disables the crop: the output
    has the size of the source and its pixel at every coordinate is white
    with the ramp alpha of the source pixel there. *)
Theorem large_pad_keeps_full_size (im : image rgba) (threshold gain pad : Z) :
  wf_image im →
  Z.of_nat (width im) ≤ pad → Z.of_nat (height im) ≤ pad →
  ∃ out : image rgba,
    render im threshold gain pad = Ok out ∧
    width out = width im ∧ height out = height im ∧
    ∀ (x y : nat) (p : rgba), getpixel im x y = Ok p →
      getpixel out x y
      = Ok (RGBA 255 255 255 (pixel_alpha threshold gain (rgb_of p))).
Proof.
  intros Hwf Hpw Hph.
  exists (silhouette (mask_of threshold gain im)). split.
  - rewrite render_eq by done. unfold crop_to_content.
    destruct (getbbox _) as [[[[bx0 by0] bx1] by1]|] eqn:Hbbox; [|done].
    destruct (getbbox_Some _ _ (wf_band _ im Hwf) Hbbox) as [Hin _].
    cbn [mask_of band width height] in Hin. unfold within in Hin.
    unfold padded_box.
    rewrite (Z.max_l 0), (Z.max_l 0), (Z.min_l (Z.of_nat (width im))),
      (Z.min_l (Z.of_nat (height im))) by lia.
    pose proof (crop_full (mask_of threshold gain im) (wf_band _ im Hwf)) as Hfull.
    cbn [mask_of band width height] in Hfull. by rewrite Hfull.
  - split; [done|]. split; [done|]. intros x y p Hp.
    by apply getpixel_silhouette, getpixel_mask_of.
Qed.

Lemma large_pad_keeps_full_size_witness :
  ∃ out : image rgba,
    render strip 6 18 24 = Ok out ∧
    width out = width strip ∧ height out = height strip ∧
    ∀ (x y : nat) (p : rgba), getpixel strip x y = Ok p →
      getpixel out x y = Ok (RGBA 255 255 255 (pixel_alpha 6 18 (rgb_of p))).
Proof.
  apply (large_pad_keeps_full_size strip 6 18 24);
    [solve_wf | vm_compute; discriminate | vm_compute; discriminate].
Defined.

(** X6. With pad 0 the crop is tight: the output has exactly the size of
    the bounding box, and its first and last column and its first and last
    row each hold a pixel with non-zero alpha. *)
Theorem zero_pad_crop_is_tight (im : image rgba) (threshold gain : Z)
    (mask : image Z) (x0 y0 x1 y1 : Z) :
  wf_image im →
  alpha_mask im threshold gain = Ok mask →
  getbbox mask = Some (x0, y0, x1, y1) →
  ∃ out : image rgba,
    render im threshold gain 0 = Ok out ∧
    Z.of_nat (width out) = x1 - x0 ∧ Z.of_nat (height out) = y1 - y0 ∧
    (∃ (j : nat) (p : rgba), getpixel out 0 j = Ok p ∧ alph p ≠ 0) ∧
    (∃ (j : nat) (p : rgba), getpixel out (width out - 1) j = Ok p ∧ alph p ≠ 0) ∧
    (∃ (i : nat) (p : rgba), getpixel out i 0 = Ok p ∧ alph p ≠ 0) ∧
    (∃ (i : nat) (p : rgba), getpixel out i (height out - 1) = Ok p ∧ alph p ≠ 0).
Proof.
  intros Hwf Hmask Hbbox.
  rewrite alpha_mask_eq in Hmask by done. injection Hmask as <-.
  set (mask := mask_of threshold gain im) in *.
  assert (wf_image mask) as Hwfm by (by apply wf_band).
  destruct (getbbox_Some mask _ Hwfm Hbbox) as [Hin Hcover].
  cbn [mask mask_of band width height] in Hin. unfold within in Hin.
  assert (padded_box (width im) (height im) 0 (x0, y0, x1, y1) = (x0, y0, x1, y1)) as Hpb.
  { unfold padded_box. rewrite !Z.sub_0_r, !Z.add_0_r.
    rewrite (Z.max_r 0 x0), (Z.max_r 0 y0), (Z.min_r _ x1), (Z.min_r _ y1) by lia.
    done. }
  destruct (render_cropped im threshold gain 0 (x0, y0, x1, y1) x0 y0 x1 y1)
    as (a' & Hcrop & Hrender & _ & _); [done..|].
  destruct (crop_ok mask x0 y0 x1 y1) as (a'' & Hcrop' & Hw' & Hh' & Hpx); [lia..|].
  fold mask in Hcrop. rewrite Hcrop in Hcrop'. injection Hcrop' as <-.
  exists (silhouette a'). split; [done|].
  cbn [silhouette band width height]. split; [lia|]. split; [lia|].
  (* a non-zero mask pixel reappears in the output *)
  assert (∀ c, c ∈ nonzero_coords mask →
            ∃ p, getpixel (silhouette a') (Z.to_nat (c.1 - x0)) (Z.to_nat (c.2 - y0))
                 = Ok p ∧ alph p ≠ 0) as Hshow.
  { intros c (x & y & v & -> & Hget & Hv)%elem_of_nonzero_coords. cbn [fst snd].
    pose proof (Hcover x y v Hget Hv) as Hins. unfold inside in Hins.
    exists (RGBA 255 255 255 v). split; [|done].
    apply getpixel_silhouette. rewrite Hpx by lia. f_equal.
    replace (x0 + Z.of_nat (Z.to_nat (Z.of_nat x - x0))) with (Z.of_nat x) by lia.
    replace (y0 + Z.of_nat (Z.to_nat (Z.of_nat y - y0))) with (Z.of_nat y) by lia.
    by apply pixel_or_zero_get. }
  destruct (getbbox_attained mask _ Hbbox)
    as ((cl & Hcl & El) & (cu & Hcu & Eu) & (cr & Hcr & Er) & (cd & Hcd & Ed)).
  repeat split.
  - destruct (Hshow cl Hcl) as (p & Hp & Hnz). exists (Z.to_nat (cl.2 - y0)), p.
    split; [|done]. by replace 0%nat with (Z.to_nat (cl.1 - x0)) by lia.
  - destruct (Hshow cr Hcr) as (p & Hp & Hnz). exists (Z.to_nat (cr.2 - y0)), p.
    split; [|done]. by replace (width a' - 1)%nat with (Z.to_nat (cr.1 - x0)) by lia.
  - destruct (Hshow cu Hcu) as (p & Hp & Hnz). exists (Z.to_nat (cu.1 - x0)), p.
    split; [|done]. by replace 0%nat with (Z.to_nat (cu.2 - y0)) by lia.
  - destruct (Hshow cd Hcd) as (p & Hp & Hnz). exists (Z.to_nat (cd.1 - x0)), p.
    split; [|done]. by replace (height a' - 1)%nat with (Z.to_nat (cd.2 - y0)) by lia.
Qed.

Lemma zero_pad_crop_is_tight_witness :
  ∃ out : image rgba,
    render strip 6 18 0 = Ok out ∧
    Z.of_nat (width out) = 3 - 1 ∧ Z.of_nat (height out) = 1 - 0 ∧
    (∃ (j : nat) (p : rgba), getpixel out 0 j = Ok p ∧ alph p ≠ 0) ∧
    (∃ (j : nat) (p : rgba), getpixel out (width out - 1) j = Ok p ∧ alph p ≠ 0) ∧
    (∃ (i : nat) (p : rgba), getpixel out i 0 = Ok p ∧ alph p ≠ 0) ∧
    (∃ (i : nat) (p : rgba), getpixel out i (height out - 1) = Ok p ∧ alph p ≠ 0).
Proof.
  apply (zero_pad_crop_is_tight strip 6 18 (mask_of 6 18 strip) 1 0 3 1);
    [solve_wf | reflexivity | vm_compute; reflexivity].
Defined.

Lemma render_white (im : image rgba) (threshold gain pad : Z) (out : image rgba) :
  wf_image im → render im threshold gain pad = Ok out →
  wf_image out ∧
  ∀ (x y : nat) (p : rgba), getpixel out x y = Ok p → rgb_of p = (255, 255, 255).
Proof.
  intros Hwf. rewrite render_eq by done.
  destruct (crop_to_content _ _ _ _) as [alpha|e] eqn:Hcrop; [|done].
  intros [= <-]. split.
  - apply wf_band. eapply wf_crop_to_content; [|done]. by apply wf_band.
  - by intros x y p (v & _ & ->)%getpixel_silhouette_inv.
Qed.

(** X7. [process] is not idempotent on its own output.  Rendering an output
    again, with a threshold and gain that make white opaque (as the defaults
    do), gives an image of the same size in which every pixel is opaque
    white: the alpha mask of the first run is lost. *)
Theorem rendering_an_output_again_is_opaque (im : image rgba)
    (threshold gain pad threshold' gain' pad' : Z) (out : image rgba) :
  wf_image im →
  render im threshold gain pad = Ok out →
  255 ≤ (255 - threshold') * gain' → 0 ≤ pad' →
  ∃ out' : image rgba,
    render out threshold' gain' pad' = Ok out' ∧
    width out' = width out ∧ height out' = height out ∧
    ∀ (x y : nat) (p : rgba), getpixel out x y = Ok p →
      getpixel out' x y = Ok (RGBA 255 255 255 255).
Proof.
  intros Hwf Hrender Hopaque Hpad.
  destruct (render_white im threshold gain pad out Hwf Hrender) as [Hwfo Hwhite].
  set (m := mask_of threshold' gain' out).
  assert (wf_image m) as Hwfm by (by apply wf_band).
  assert (∀ (x y : nat) (p : rgba), getpixel out x y = Ok p →
            getpixel m x y = Ok 255) as Hm.
  { intros x y p Hp. unfold m. rewrite (getpixel_mask_of _ _ _ _ _ _ Hp). f_equal.
    rewrite (Hwhite x y p Hp). unfold pixel_alpha.
    repeat case_bool_decide; lia. }
  assert (crop_to_content (width out) (height out) pad' m = Ok m) as Hcrop.
  { unfold crop_to_content.
    destruct (getbbox m) as [[[[bx0 by0] bx1] by1]|] eqn:Hbbox; [|done].
    destruct (getbbox_Some m _ Hwfm Hbbox) as [Hin Hcover].
    cbn [m mask_of band width height] in Hin. unfold within in Hin.
    destruct (getpixel_in_range out 0 0) as [p0 Hp0]; [done|lia..|].
    destruct (getpixel_in_range out (width out - 1) (height out - 1))
      as [p1 Hp1]; [done|lia..|].
    assert (255 ≠ 0) as Hnz by lia.
    pose proof (Hcover _ _ 255 (Hm _ _ _ Hp0) Hnz) as H0.
    pose proof (Hcover _ _ 255 (Hm _ _ _ Hp1) Hnz) as H1.
    unfold inside in H0, H1.
    unfold padded_box.
    rewrite (Z.max_l 0), (Z.max_l 0), (Z.min_l (Z.of_nat (width out))),
      (Z.min_l (Z.of_nat (height out))) by lia.
    apply (crop_full m Hwfm). }
  exists (silhouette m). split.
  - rewrite render_eq by done. fold m. by rewrite Hcrop.
  - split; [done|]. split; [done|]. intros x y p Hp.
    by apply getpixel_silhouette, (Hm x y p).
Qed.

Lemma rendering_an_output_again_is_opaque_witness :
  ∃ out' : image rgba,
    render scenario_out 6 18 24 = Ok out' ∧
    width out' = width scenario_out ∧ height out' = height scenario_out ∧
    ∀ (x y : nat) (p : rgba), getpixel scenario_out x y = Ok p →
      getpixel out' x y = Ok (RGBA 255 255 255 255).
Proof.
  apply (rendering_an_output_again_is_opaque scenario 6 18 2 6 18 24 scenario_out);
    [solve_wf | vm_compute; reflexivity | lia | lia].
Defined.

(** ** The ramp and its parameters *)

Lemma ceil_div_pred (a b : Z) : 0 < b → (ceil_div a b - 1) * b < a.
Proof.
  intros Hb. unfold ceil_div.
  pose proof (Z.mod_pos_bound (- a) b Hb). pose proof (Z.div_mod (- a) b). nia.
Qed.

(** X8. For a gain of at least 1 the two ends of the ramp are exact: a pixel
    is fully transparent if and only if [max(r, g, b) <= threshold], fully
    opaque if and only if [max(r, g, b) >= threshold + ceil(255 / gain)], and
    strictly between the two otherwise. *)
Theorem ramp_ends_are_exact (im : image rgba) (threshold gain : Z)
    (x y : nat) (p : rgba) :
  wf_image im → 1 ≤ gain →
  getpixel im x y = Ok p →
  ∃ (mask : image Z) (α : Z),
    alpha_mask im threshold gain = Ok mask ∧
    getpixel mask x y = Ok α ∧
    0 ≤ α ≤ 255 ∧
    (α = 0 ↔ max_channel p ≤ threshold) ∧
    (α = 255 ↔ threshold + ceil_div 255 gain ≤ max_channel p).
Proof.
  intros Hwf Hgain Hget.
  exists (mask_of threshold gain im), (pixel_alpha threshold gain (rgb_of p)).
  split; [by apply alpha_mask_eq|]. split; [by apply getpixel_mask_of|].
  split; [apply pixel_alpha_range|].
  rewrite pixel_alpha_ramp. cbv zeta.
  pose proof (ceil_div_mul 255 gain ltac:(lia)).
  pose proof (ceil_div_pred 255 gain ltac:(lia)).
  repeat case_bool_decide; split; split; intros; nia.
Qed.

Lemma ramp_ends_are_exact_witness :
  ∃ (mask : image Z) (α : Z),
    alpha_mask strip 6 18 = Ok mask ∧
    getpixel mask 1 0 = Ok α ∧
    0 ≤ α ≤ 255 ∧
    (α = 0 ↔ max_channel (RGBA 10 12 9 255) ≤ 6) ∧
    (α = 255 ↔ 6 + ceil_div 255 18 ≤ max_channel (RGBA 10 12 9 255)).
Proof.
  apply (ramp_ends_are_exact strip 6 18 1 0 (RGBA 10 12 9 255));
    [solve_wf | lia | reflexivity].
Defined.

(** X9. Tuning the parameters moves the alpha one way only: raising the
    threshold, or lowering a non-negative gain, never makes a pixel more
    opaque. *)
Theorem alpha_monotone_in_parameters (im : image rgba)
    (threshold gain threshold' gain' : Z) (x y : nat) (p : rgba) :
  wf_image im →
  getpixel im x y = Ok p →
  threshold ≤ threshold' → 0 ≤ gain' ≤ gain →
  ∃ (mask mask' : image Z) (α α' : Z),
    alpha_mask im threshold gain = Ok mask ∧
    alpha_mask im threshold' gain' = Ok mask' ∧
    getpixel mask x y = Ok α ∧ getpixel mask' x y = Ok α' ∧
    α' ≤ α.
Proof.
  intros Hwf Hget Ht Hg.
  exists (mask_of threshold gain im), (mask_of threshold' gain' im),
    (pixel_alpha threshold gain (rgb_of p)), (pixel_alpha threshold' gain' (rgb_of p)).
  split; [by apply alpha_mask_eq|]. split; [by apply alpha_mask_eq|].
  split; [by apply getpixel_mask_of|]. split; [by apply getpixel_mask_of|].
  rewrite !pixel_alpha_ramp. cbv zeta.
  set (m := max_channel p).
  assert ((m - threshold') * gain' ≤ 0 ∨
          (m - threshold') * gain' ≤ (m - threshold) * gain) as Hcmp.
  { destruct (decide (m - threshold' ≤ 0)) as [Hle|Hgt]; [left; nia|right].
    trans ((m - threshold) * gain').
    - apply Z.mul_le_mono_nonneg_r; lia.
    - apply Z.mul_le_mono_nonneg_l; lia. }
  repeat case_bool_decide; lia.
Qed.

Lemma alpha_monotone_in_parameters_witness :
  ∃ (mask mask' : image Z) (α α' : Z),
    alpha_mask strip 6 18 = Ok mask ∧
    alpha_mask strip 8 10 = Ok mask' ∧
    getpixel mask 1 0 = Ok α ∧ getpixel mask' 1 0 = Ok α' ∧
    α' ≤ α.
Proof.
  apply (alpha_monotone_in_parameters strip 6 18 8 10 1 0 (RGBA 10 12 9 255));
    [solve_wf | reflexivity | lia | lia].
Defined.

(** ** Runs of [process] and of the script *)

(** X10. A run on a decodable source with a non-negative pad and a writable
    destination never raises: the loops stay in bounds, the bands match and
    the crop box is valid.  It writes the rendered image at the destination,
    prints one line with the size of that image, and changes nothing else. *)
Theorem process_succeeds (src_path dst_path : string) (threshold gain pad : Z)
    (σ : world) (im : image rgba) :
  fs σ !! src_path = Some (ImageFile im) → wf_image im →
  0 ≤ pad → writable σ dst_path = true →
  ∃ out : image rgba,
    render im threshold gain pad = Ok out ∧
    process src_path dst_path threshold gain pad σ
    = (Ok (), World (<[dst_path := ImageFile out]> (fs σ)) (writable σ)
                (stdout σ ++ [status_line dst_path out]) (save_failure σ)).
Proof.
  intros Hsrc Hwf Hpad Hwr.
  destruct (render_total im threshold gain pad Hwf Hpad) as [out Hout].
  exists out. split; [done|]. by rewrite process_spec, Hsrc, Hout, Hwr.
Qed.

Lemma process_succeeds_witness :
  ∃ out : image rgba,
    render strip 6 18 24 = Ok out ∧
    process "in.png" "out.png" 6 18 24 (disk {["in.png" := ImageFile strip]})
    = (Ok (), World (<["out.png" := ImageFile out]>
                       (fs (disk {["in.png" := ImageFile strip]})))
                (writable (disk {["in.png" := ImageFile strip]}))
                (stdout (disk {["in.png" := ImageFile strip]})
                   ++ [status_line "out.png" out])
                (save_failure (disk {["in.png" := ImageFile strip]}))).
Proof.
  apply (process_succeeds "in.png" "out.png" 6 18 24
           (disk {["in.png" := ImageFile strip]}) strip);
    [vm_compute; reflexivity | solve_wf | lia | reflexivity].
Defined.

(** X11. [process] touches no file but its destination: every other path,
    the source included when it differs from the destination, holds after
    the run what it held before, whether the run succeeds or raises. *)
Theorem process_touches_only_destination (src_path dst_path path : string)
    (threshold gain pad : Z) (σ : world) :
  path ≠ dst_path →
  fs (process src_path dst_path threshold gain pad σ).2 !! path = fs σ !! path.
Proof.
  intros Hne. rewrite process_spec.
  destruct (fs σ !! src_path) as [[im|data]|]; [|done..].
  destruct (render im threshold gain pad) as [out|e]; [|done].
  destruct (writable σ dst_path).
  - cbn [snd fs]. by rewrite lookup_insert_ne.
  - destruct (failed_save_spec dst_path σ) as (e & σ' & -> & _ & _ & _ & _ & Hframe & _).
    by apply Hframe.
Qed.

Lemma process_touches_only_destination_witness :
  fs (process "in.png" "out.png" 6 18 24
        (disk {["in.png" := ImageFile strip]})).2 !! "in.png"
  = fs (disk {["in.png" := ImageFile strip]}) !! "in.png".
Proof.
  apply (process_touches_only_destination "in.png" "out.png" "in.png" 6 18 24
           (disk {["in.png" := ImageFile strip]})).
  discriminate.
Defined.

(** X12. Two runs on different files commute: when neither reads what the
    other writes and the destinations differ, running them in the other
    order succeeds as well and leaves the same file system. *)
Theorem independent_runs_commute (src1 dst1 src2 dst2 : string)
    (t1 g1 p1 t2 g2 p2 : Z) (σ σa : world) :
  src1 ≠ dst2 → src2 ≠ dst1 → dst1 ≠ dst2 →
  (process src1 dst1 t1 g1 p1;; process src2 dst2 t2 g2 p2) σ = (Ok (), σa) →
  ∃ σb : world,
    (process src2 dst2 t2 g2 p2;; process src1 dst1 t1 g1 p1) σ = (Ok (), σb) ∧
    fs σb = fs σa ∧ writable σb = writable σa.
Proof.
  intros H12 H21 Hd. unfold mbind, IO_bind. rewrite !process_spec.
  destruct (fs σ !! src1) as [[im1|data]|] eqn:Hs1; [|done..].
  destruct (render im1 t1 g1 p1) as [out1|e] eqn:Hr1; [|done].
  destruct (writable σ dst1) eqn:Hw1; last first.
  { by destruct (failed_save_spec dst1 σ) as (e & σ0 & -> & _). }
  rewrite process_spec. cbn [fs writable stdout save_failure].
  rewrite lookup_insert_ne by done.
  destruct (fs σ !! src2) as [[im2|data]|] eqn:Hs2; [|done..].
  destruct (render im2 t2 g2 p2) as [out2|e] eqn:Hr2; [|done].
  destruct (writable σ dst2) eqn:Hw2; last first.
  { match goal with |- context [failed_save dst2 ?τ] =>
      by destruct (failed_save_spec dst2 τ) as (e & σ0 & -> & _) end. }
  intros [= <-]. rewrite process_spec. cbn [fs writable stdout save_failure].
  rewrite lookup_insert_ne, Hs1, Hr1, Hw1 by done.
  eexists; split; [done|]. cbn [fs writable]. split; [|done].
  by apply insert_insert_ne.
Qed.

Lemma independent_runs_commute_witness :
  ∃ σb : world,
    (process "assets/signature-farax.png" "assets/signature-farax-white.png" 6 18 24;;
     process "assets/signature-david.png" "assets/signature-david-white.png" 6 18 24)
      assets_disk = (Ok (), σb) ∧
    fs σb = fs (main assets_disk).2 ∧ writable σb = writable (main assets_disk).2.
Proof.
  apply (independent_runs_commute
           "assets/signature-david.png" "assets/signature-david-white.png"
           "assets/signature-farax.png" "assets/signature-farax-white.png"
           6 18 24 6 18 24 assets_disk (main assets_disk).2);
    [discriminate | discriminate | discriminate | vm_compute; reflexivity].
Defined.

(** X13. The script, when both sources decode and both destinations are
    writable, returns normally; it has written the render of each source
    under the default parameters at its own destination, printed the two
    status lines in the order of the calls, and left every other file as it
    was. *)
Theorem main_writes_both_outputs (σ : world) (im1 im2 : image rgba) :
  fs σ !! "assets/signature-david.png" = Some (ImageFile im1) →
  fs σ !! "assets/signature-farax.png" = Some (ImageFile im2) →
  wf_image im1 → wf_image im2 →
  writable σ "assets/signature-david-white.png" = true →
  writable σ "assets/signature-farax-white.png" = true →
  ∃ out1 out2 : image rgba,
    render im1 6 18 24 = Ok out1 ∧ render im2 6 18 24 = Ok out2 ∧
    main σ
    = (Ok (),
       World (<["assets/signature-farax-white.png" := ImageFile out2]>
                (<["assets/signature-david-white.png" := ImageFile out1]> (fs σ)))
         (writable σ)
         (stdout σ ++ [status_line "assets/signature-david-white.png" out1;
                       status_line "assets/signature-farax-white.png" out2])
         (save_failure σ)).
Proof.
  intros Hs1 Hs2 Hwf1 Hwf2 Hw1 Hw2.
  destruct (render_total im1 6 18 24 Hwf1) as [out1 Hout1]; [lia|].
  destruct (render_total im2 6 18 24 Hwf2) as [out2 Hout2]; [lia|].
  exists out1, out2. split; [done|]. split; [done|].
  unfold main, mbind, IO_bind. rewrite process_spec, Hs1, Hout1, Hw1.
  rewrite process_spec. cbn [fs writable stdout save_failure].
  rewrite lookup_insert_ne, Hs2, Hout2, Hw2 by discriminate.
  by rewrite <-(assoc_L (++)).
Qed.

Lemma main_writes_both_outputs_witness :
  ∃ out1 out2 : image rgba,
    render scenario 6 18 24 = Ok out1 ∧ render strip 6 18 24 = Ok out2 ∧
    main assets_disk
    = (Ok (),
       World (<["assets/signature-farax-white.png" := ImageFile out2]>
                (<["assets/signature-david-white.png" := ImageFile out1]>
                   (fs assets_disk)))
         (writable assets_disk)
         (stdout assets_disk
            ++ [status_line "assets/signature-david-white.png" out1;
                status_line "assets/signature-farax-white.png" out2])
         (save_failure assets_disk)).
Proof.
  apply (main_writes_both_outputs assets_disk scenario strip);
    [vm_compute; reflexivity | vm_compute; reflexivity | solve_wf | solve_wf
    | reflexivity | reflexivity].
Defined.

(** X14. When the first call raises, the script raises the same exception at
    once and the second call does not run: nothing is printed, and no path
    other than the first destination is changed, even if the second source
    would process.  (The first destination itself is changed only by a save
    that failed after opening it.) *)
Theorem main_stops_at_first_failure (σ σ' : world) (e : exn) :
  process "assets/signature-david.png" "assets/signature-david-white.png"
    6 18 24 σ = (Raise e, σ') →
  main σ = (Raise e, σ') ∧
  stdout σ' = stdout σ ∧
  ∀ path : string, path ≠ "assets/signature-david-white.png" →
    fs σ' !! path = fs σ !! path.
Proof.
  intros Hfirst. split.
  { unfold main, mbind, IO_bind. by rewrite Hfirst. }
  rewrite process_spec in Hfirst.
  destruct (fs σ !! "assets/signature-david.png") as [[im|data]|];
    [|by injection Hfirst as _ <-..].
  destruct (render im 6 18 24) as [out|e']; [|by injection Hfirst as _ <-].
  destruct (writable σ "assets/signature-david-white.png"); [discriminate Hfirst|].
  destruct (failed_save_spec "assets/signature-david-white.png" σ)
    as (e0 & σ0 & Hfail & _ & Hout & _ & _ & Hframe & _).
  rewrite Hfail in Hfirst. by injection Hfirst as _ <-.
Qed.

Lemma main_stops_at_first_failure_witness :
  let σ' := World (<["assets/signature-david-white.png" := NotAnImage ""]>
                     (fs assets_disk_full))
              (writable assets_disk_full) [] (save_failure assets_disk_full) in
  main assets_disk_full = (Raise OSError, σ') ∧
  stdout σ' = stdout assets_disk_full ∧
  ∀ path : string, path ≠ "assets/signature-david-white.png" →
    fs σ' !! path = fs assets_disk_full !! path.
Proof.
  apply (main_stops_at_first_failure assets_disk_full
           (World (<["assets/signature-david-white.png" := NotAnImage ""]>
                     (fs assets_disk_full))
              (writable assets_disk_full) [] (save_failure assets_disk_full))
           OSError).
  vm_compute. reflexivity.
Defined.

(** X15. When the first call succeeds and the second raises, the script
    raises that exception and the output of the first call stays: whatever
    the failed second call left behind, the first image is at its
    destination and its status line is the only one printed. *)
Theorem main_keeps_first_output (σ σ1 σ2 : world) (e : exn) :
  process "assets/signature-david.png" "assets/signature-david-white.png"
    6 18 24 σ = (Ok (), σ1) →
  process "assets/signature-farax.png" "assets/signature-farax-white.png"
    6 18 24 σ1 = (Raise e, σ2) →
  main σ = (Raise e, σ2) ∧
  ∃ out1 : image rgba,
    fs σ1 = <["assets/signature-david-white.png" := ImageFile out1]> (fs σ) ∧
    fs σ2 !! "assets/signature-david-white.png" = Some (ImageFile out1) ∧
    stdout σ2 = stdout σ ++ [status_line "assets/signature-david-white.png" out1].
Proof.
  intros Hfirst Hsecond. split.
  { unfold main, mbind, IO_bind. by rewrite Hfirst, Hsecond. }
  assert (stdout σ2 = stdout σ1 ∧
          fs σ2 !! "assets/signature-david-white.png"
          = fs σ1 !! "assets/signature-david-white.png") as [Hout2 Hfs2].
  { rewrite process_spec in Hsecond.
    destruct (fs σ1 !! "assets/signature-farax.png") as [[im|data]|];
      [|by injection Hsecond as _ <-..].
    destruct (render im 6 18 24) as [out|e']; [|by injection Hsecond as _ <-].
    destruct (writable σ1 "assets/signature-farax-white.png");
      [discriminate Hsecond|].
    destruct (failed_save_spec "assets/signature-farax-white.png" σ1)
      as (e0 & σ0 & Hfail & _ & Hout & _ & _ & Hframe & _).
    rewrite Hfail in Hsecond. injection Hsecond as _ <-.
    split; [done|]. by apply Hframe. }
  rewrite process_spec in Hfirst.
  destruct (fs σ !! "assets/signature-david.png") as [[im|data]|];
    [|discriminate Hfirst..].
  destruct (render im 6 18 24) as [out|e']; [|discriminate Hfirst].
  destruct (writable σ "assets/signature-david-white.png"); last first.
  { by destruct (failed_save_spec "assets/signature-david-white.png" σ)
      as (e0 & σ0 & Hfail & _); rewrite Hfail in Hfirst. }
  injection Hfirst as <-. exists out. rewrite Hout2, Hfs2. cbn [fs stdout].
  by rewrite lookup_insert_eq.
Qed.

Lemma main_keeps_first_output_witness :
  let σ1 := (process "assets/signature-david.png" "assets/signature-david-white.png"
               6 18 24 assets_disk_first_only).2 in
  let σ2 := (process "assets/signature-farax.png" "assets/signature-farax-white.png"
               6 18 24 σ1).2 in
  main assets_disk_first_only = (Raise OSError, σ2) ∧
  ∃ out1 : image rgba,
    fs σ1 = <["assets/signature-david-white.png" := ImageFile out1]>
              (fs assets_disk_first_only) ∧
    fs σ2 !! "assets/signature-david-white.png" = Some (ImageFile out1) ∧
    stdout σ2 = stdout assets_disk_first_only
                ++ [status_line "assets/signature-david-white.png" out1].
Proof.
  apply (main_keeps_first_output assets_disk_first_only
           (process "assets/signature-david.png" "assets/signature-david-white.png"
              6 18 24 assets_disk_first_only).2
           (process "assets/signature-farax.png" "assets/signature-farax-white.png"
              6 18 24
              (process "assets/signature-david.png" "assets/signature-david-white.png"
                 6 18 24 assets_disk_first_only).2).2
           OSError);
    vm_compute; reflexivity.
Defined.
